(** * The storefront widget: event bus, view base and domain controllers

    A shallow embedding of [src/types/IProduct.ts] (which, below its three
    interfaces, holds the whole application: [EventDispatcher], [BaseView],
    the concrete views, [CatalogController] and [OrderController]) and of
    the form types [IOrderDetails] and [IContactInfo].

    Modelling decisions, all forced by the TypeScript source:

    - [eventListeners] maps an event name to an array *object*.  [subscribe]
      pushes onto that object in place, [unsubscribe] stores a fresh array
      produced by [filter], and [dispatch] runs [Array.prototype.forEach] on
      the live object.  The registry is therefore a map from event names to
      locations of a store of arrays, and [forEach] reads the store at every
      index, with the length read once before the loop.
    - Callbacks are compared by identity ([cb !== callback]); a callback is
      a handler identity [hid], and what it does when called is looked up in
      a table of handler bodies.  A body is a finite program over the bus
      interface and the state owned by the components, so that a callback
      can subscribe, unsubscribe, dispatch re-entrantly and throw.
    - A dispatch nested in a callback may never return (event cycles); the
      interpreter takes a bound on the nesting depth of callback calls.
    - The TypeScript [number] of [itemCount] is a counter started at [1] and
      incremented by [++]; it is modelled by [Z] (every integer below
      [2^53] is an exact double). *)

From stdpp Require Import base option list functions strings gmap.
From Stdlib Require Import ZArith Lia.

#[local] Set Warnings "-register-all".

(** ** Data model *)

Definition number := Z.

(** [interface IProduct] *)
Record IProduct := {
  id : string;
  description : string;
  image : string;
  title : string;
  category : string;
  price : option number
}.

(** [interface IProductCard]: one basket line. *)
Record IProductCard := {
  product : IProduct;
  buttonText : option string;
  itemCount : number
}.

(** [interface IOrderDetails] *)
Record IOrderDetails := {
  payment : string;
  address : string
}.

(** [interface IContactInfo] *)
Record IContactInfo := {
  email : string;
  phone : string
}.

(** The keys of [AppEventMap]. *)
Inductive AppEvent :=
| product_add
| product_remove
| product_view
| basket_update
| order_init
| order_submit
| modal_close.

#[global] Instance AppEvent_eq_dec : EqDecision AppEvent.
Proof. solve_decision. Defined.

(** [AppEventMap[K]]: the payload type bound to each event name. *)
Definition payload (e : AppEvent) : Type :=
  match e with
  | product_add | product_remove | product_view => IProduct
  | basket_update => list IProductCard
  | order_init => IOrderDetails
  | order_submit => IContactInfo
  | modal_close => unit
  end.

(** ** The event bus *)

Module Bus.

(** Identity of a callback function object. *)
Abbreviation hid := nat (only parsing).
(** Location of an array object. *)
Abbreviation loc := nat (only parsing).

(** What a callback does when it is called: a program over the bus
    interface ([Subscribe], [Unsubscribe], [Dispatch]), the state [U] owned
    by the components ([Get], [Put]), [Throw] and [try]/[catch]. *)
Inductive prog (U : Type) : Type :=
| Done
| Throw (err : string)
| Subscribe (e : AppEvent) (h : hid) (k : prog U)
| Unsubscribe (e : AppEvent) (h : hid) (k : prog U)
| Dispatch (e : AppEvent) (p : payload e) (k : prog U)
| Get (k : U → prog U)
| Put (u : U) (k : prog U)
| Try (body : prog U) (catch : string → prog U) (k : prog U).

Arguments Done {U}.
Arguments Throw {U} err.
Arguments Subscribe {U} e h k.
Arguments Unsubscribe {U} e h k.
Arguments Dispatch {U} e p k.
Arguments Get {U} k.
Arguments Put {U} u k.
Arguments Try {U} body catch k.

(** One callback call made by a [dispatch], with the calls made by the
    dispatches nested in it. *)
Inductive Call :=
| Invoke (e : AppEvent) (p : payload e) (h : hid) (nested : list Call).

Definition callee (c : Call) : hid :=
  match c with Invoke _ _ h _ => h end.

Inductive Status :=
| Normal
| Threw (err : string)
| Diverged.

Section Bus.
Context {U : Type}.

(** The bus ([eventListeners] and the arrays it refers to) together with
    the state of the components that subscribe to it. *)
Record World := {
  heap : list (list hid);
  eventListeners : AppEvent → option loc;
  client : U
}.

Record Outcome := {
  status : Status;
  final : World;
  calls : list Call
}.

(** The callbacks a dispatch called itself, in call order (those called
    by nested dispatches are below them in the call tree). *)
Definition invoked (o : Outcome) : list hid := map callee (calls o).

Definition returns (s : World) : Outcome :=
  {| status := Normal; final := s; calls := [] |}.

(** Sequencing: the second step runs only when the first returned
    normally; an exception (or divergence) of the first is the result. *)
Definition and_then (o : Outcome) (k : World → Outcome) : Outcome :=
  match status o with
  | Normal =>
      let o' := k (final o) in
      {| status := status o'; final := final o'; calls := calls o ++ calls o' |}
  | _ => o
  end.

(** An assignment to a field of a component leaves the bus as it is. *)
Definition with_client (s : World) (u : U) : World :=
  {| heap := heap s; eventListeners := eventListeners s; client := u |}.

(** [new EventDispatcher()] : [eventListeners = {}]. *)
Definition new_EventDispatcher (u : U) : World :=
  {| heap := []; eventListeners := λ _, None; client := u |}.

(** The array currently registered for [e], read through the store. *)
Definition listeners (s : World) (e : AppEvent) : list hid :=
  match eventListeners s e with
  | Some l => default [] (heap s !! l)
  | None => []
  end.

(** [subscribe(event, callback)] *)
Definition subscribe (e : AppEvent) (h : hid) (s : World) : World :=
  let s1 :=
    match eventListeners s e with
    | Some _ => s
    | None =>
        {| heap := heap s ++ [[]];
           eventListeners := <[e := Some (length (heap s))]> (eventListeners s);
           client := client s |}
    end in
  match eventListeners s1 e with
  | Some l =>
      {| heap := alter (λ arr, arr ++ [h]) l (heap s1);
         eventListeners := eventListeners s1;
         client := client s1 |}
  | None => s1
  end.

(** [unsubscribe(event, callback)] *)
Definition unsubscribe (e : AppEvent) (h : hid) (s : World) : World :=
  match eventListeners s e with
  | Some l =>
      match heap s !! l with
      | Some arr =>
          {| heap := heap s ++ [filter (λ cb, cb ≠ h) arr];
             eventListeners := <[e := Some (length (heap s))]> (eventListeners s);
             client := client s |}
      | None => s
      end
  | None => s
  end.

(** [subscribe(e, h)] for each [h] of a list, in order. *)
Definition subscribe_all (e : AppEvent) (hs : list hid) (s : World) : World :=
  foldl (λ s1 h, subscribe e h s1) s hs.

(** [Array.prototype.forEach]: for [k] from the start index, [n] more
    indices; an index that is not a property of the array is skipped, the
    element is read from the live array. *)
Fixpoint forEach (call : hid → World → Outcome) (l : loc) (k n : nat)
    (s : World) : Outcome :=
  match n with
  | O => returns s
  | S n' =>
      match heap s !! l ≫= (λ arr, arr !! k) with
      | Some h => and_then (call h s) (forEach call l (S k) n')
      | None => forEach call l (S k) n' s
      end
  end.

(** [dispatch(event, payload)], over the way a callback is called. *)
Definition dispatch_with
    (call : ∀ e : AppEvent, payload e → hid → World → Outcome)
    (e : AppEvent) (p : payload e) (s : World) : Outcome :=
  match eventListeners s e with
  | Some l =>
      match heap s !! l with
      | Some arr => forEach (call e p) l 0 (length arr) s
      | None => returns s
      end
  | None => returns s
  end.

(** Running the body of a callback. *)
Fixpoint exec (disp : ∀ e : AppEvent, payload e → World → Outcome)
    (c : prog U) (s : World) : Outcome :=
  match c with
  | Done => returns s
  | Throw err => {| status := Threw err; final := s; calls := [] |}
  | Subscribe e h k => exec disp k (subscribe e h s)
  | Unsubscribe e h k => exec disp k (unsubscribe e h s)
  | Dispatch e p k => and_then (disp e p s) (exec disp k)
  | Get k => exec disp (k (client s)) s
  | Put u k => exec disp k (with_client s u)
  | Try body catch k =>
      let o := exec disp body s in
      match status o with
      | Threw err =>
          and_then
            {| status := Normal; final := final o; calls := calls o |}
            (λ s1, and_then (exec disp (catch err) s1) (exec disp k))
      | _ => and_then o (exec disp k)
      end
  end.

(** Invariant of the registry: every registered location is allocated,
    and no array is registered for two events ([subscribe] and
    [unsubscribe] only ever register an array they have just created). *)
Definition well_formed (s : World) : Prop :=
  (∀ e l, eventListeners s e = Some l → l < length (heap s)) ∧
  (∀ e e' l, eventListeners s e = Some l → eventListeners s e' = Some l →
     e = e').

(** Array objects are never shortened nor overwritten: [push] is the only
    mutation, and it appends. *)
Definition heap_extends (s s' : World) : Prop :=
  ∀ l arr, heap s !! l = Some arr → ∃ ext, heap s' !! l = Some (arr ++ ext).

(** A callback body without a call [subscribe(e, _)]. *)
Fixpoint never_subscribes (e : AppEvent) (c : prog U) : Prop :=
  match c with
  | Done | Throw _ => True
  | Subscribe e' _ k => e' ≠ e ∧ never_subscribes e k
  | Unsubscribe _ _ k | Dispatch _ _ k | Put _ k => never_subscribes e k
  | Get k => ∀ u, never_subscribes e (k u)
  | Try body catch k =>
      never_subscribes e body ∧ (∀ err, never_subscribes e (catch err)) ∧
      never_subscribes e k
  end.

(** [disp'] ends as [disp] does wherever [disp] ends. *)
Definition refines (disp disp' : ∀ e, payload e → World → Outcome) : Prop :=
  ∀ e (p : payload e) s,
    status (disp e p s) ≠ Diverged → disp' e p s = disp e p s.

Section Handlers.
(** The body of every callback: [handlers h e p] is what the function
    object [h] does when called with the payload [p] of event [e]. *)
Variable handlers : hid → ∀ e : AppEvent, payload e → prog U.

(** [(callback as EventCallback<K>)(payload)], with at most [fuel] levels
    of callbacks nested through re-entrant dispatches. *)
Fixpoint invoke (fuel : nat) (e : AppEvent) (p : payload e) (h : hid)
    (s : World) : Outcome :=
  match fuel with
  | O => {| status := Diverged; final := s; calls := [Invoke e p h []] |}
  | S fuel' =>
      let o := exec (dispatch_with (invoke fuel')) (handlers h e p) s in
      {| status := status o; final := final o;
         calls := [Invoke e p h (calls o)] |}
  end.

Definition dispatch (fuel : nat) (e : AppEvent) (p : payload e)
    (s : World) : Outcome :=
  dispatch_with (invoke fuel) e p s.

(** Calling the callbacks of a list one after the other: what [dispatch]
    does on a copy of the subscriber list. *)
Fixpoint invoke_all (fuel : nat) (e : AppEvent) (p : payload e)
    (hs : list hid) (s : World) : Outcome :=
  match hs with
  | [] => returns s
  | h :: hs' => and_then (invoke fuel e p h s) (invoke_all fuel e p hs')
  end.

(** Running the bodies of the callbacks of a list one after the other,
    each on the world the previous one left: the effect that calling them
    in list order has on the bus and on the components. *)
Fixpoint run_in_order (fuel : nat) (e : AppEvent) (p : payload e)
    (hs : list hid) (s : World) : Outcome :=
  match hs with
  | [] => returns s
  | h :: hs' =>
      and_then (exec (dispatch fuel) (handlers h e p) s)
        (run_in_order fuel e p hs')
  end.

End Handlers.
End Bus.

Arguments World U : clear implicits.
Arguments Outcome U : clear implicits.

End Bus.

(** ** The view lifecycle base *)

Module View.
Section BaseView.
(** A view state is a JavaScript object, read as the map of its own
    enumerable properties (the properties an object spread copies); [V] is
    the type of property values and [Region] the DOM region the view
    owns. *)
Context {V Region : Type}.

(** [abstract render(): void] of the concrete view: it reads [this.state],
    writes the region, and may throw. *)
Variable render_region : gmap string V → Region → Region * option string.

(** [rendered] records, for every call of [render], the state it read. *)
Record BaseView := {
  element : Region;
  state : gmap string V;
  rendered : list (gmap string V)
}.

(** [this.render()]: the view after the call and the exception thrown by
    it, if any. *)
Definition render (v : BaseView) : BaseView * option string :=
  let out := render_region (state v) (element v) in
  ({| element := out.1;
      state := state v;
      rendered := rendered v ++ [state v] |}, out.2).

(** [updateState(newState)]: [this.state = { ...this.state, ...newState }]
    and then [this.render()].  The spread copies the properties of
    [this.state] first and those of [newState] over them. *)
Definition updateState (newState : gmap string V) (v : BaseView)
    : BaseView * option string :=
  render
    {| element := element v;
       state := newState ∪ state v;
       rendered := rendered v |}.

End BaseView.
End View.

(** ** The domain controllers *)

Module FinalOrder.
(** The type of [{ ...this.orderDetails, ...this.contactInfo }]. *)
Record t := {
  payment : string;
  address : string;
  email : string;
  phone : string
}.
End FinalOrder.

Module App.
Import Bus.

(** The basket is held by value.  The one mutation in place is
    [existingItem.itemCount++] on the line that [find] returned, written
    here as an update at the index of that line; [updateBasket] is handed
    the very array the controller holds when the controller itself
    dispatched, and no other component of the source keeps a reference to
    the array or to a line. *)

(** [class CatalogController] *)
Record CatalogController := {
  products : list IProduct;
  basket : list IProductCard
}.

(** [class OrderController] *)
Record OrderController := {
  orderDetails : option IOrderDetails;
  contactInfo : option IContactInfo
}.

(** The state reached by the callbacks: the two controllers and what
    [console.log] printed. *)
Record Components := {
  catalog : CatalogController;
  order : OrderController;
  console : list IOrderDetails
}.

Definition set_basket (a : Components) (b : list IProductCard) : Components :=
  {| catalog := {| products := products (catalog a); basket := b |};
     order := order a;
     console := console a |}.

Definition set_order (a : Components) (o : OrderController) : Components :=
  {| catalog := catalog a; order := o; console := console a |}.

(** [existingItem.itemCount++] *)
Definition increment (item : IProductCard) : IProductCard :=
  {| product := product item;
     buttonText := buttonText item;
     itemCount := (itemCount item + 1)%Z |}.

(** The array [this.basket] when [addToBasket] reaches its [dispatch]:
    [find] returns the first line of the product's identity, whose
    [itemCount] is incremented where it stands; without one, a line of
    count [1] is pushed. *)
Definition addToBasket_lines (b : list IProductCard) (p : IProduct)
    : list IProductCard :=
  match list_find (λ item, id (product item) = id p) b with
  | Some (i, existingItem) => <[i := increment existingItem]> b
  | None => b ++ [{| product := p; buttonText := None; itemCount := 1%Z |}]
  end.

(** [this.basket.filter((item) => item.product.id !== product.id)] *)
Definition removeFromBasket_lines (b : list IProductCard) (p : IProduct)
    : list IProductCard :=
  filter (λ item, id (product item) ≠ id p) b.

(** [private addToBasket(product)] *)
Definition addToBasket (p : IProduct) : prog Components :=
  Get (λ a,
    Put (set_basket a (addToBasket_lines (basket (catalog a)) p))
      (Get (λ a', Dispatch basket_update (basket (catalog a')) Done))).

(** [private removeFromBasket(product)] *)
Definition removeFromBasket (p : IProduct) : prog Components :=
  Get (λ a,
    Put (set_basket a (removeFromBasket_lines (basket (catalog a)) p))
      (Get (λ a', Dispatch basket_update (basket (catalog a')) Done))).

(** [private updateBasket(items)] *)
Definition updateBasket (items : list IProductCard) : prog Components :=
  Get (λ a, Put (set_basket a items) Done).

(** [private initOrder(order)]: [console.log(order)]. *)
Definition initOrder (o : IOrderDetails) : prog Components :=
  Get (λ a,
    Put {| catalog := catalog a; order := order a;
           console := console a ++ [o] |} Done).

(** [private setOrderDetails(details)] *)
Definition setOrderDetails (details : IOrderDetails) : prog Components :=
  Get (λ a,
    Put (set_order a {| orderDetails := Some details;
                        contactInfo := contactInfo (order a) |}) Done).

(** The value bound to the local [finalOrder] of [submitOrder] when the
    test [this.orderDetails && this.contactInfo] succeeds ([null] is the
    only falsy value of either field). *)
Definition finalOrder (o : OrderController) : option FinalOrder.t :=
  match orderDetails o, contactInfo o with
  | Some d, Some c =>
      Some {| FinalOrder.payment := payment d;
              FinalOrder.address := address d;
              FinalOrder.email := email c;
              FinalOrder.phone := phone c |}
  | _, _ => None
  end.

(** [private submitOrder(contact)]; the local [finalOrder] is dropped at
    the end of its block. *)
Definition submitOrder (contact : IContactInfo) : prog Components :=
  Get (λ a,
    Put (set_order a {| orderDetails := orderDetails (order a);
                        contactInfo := Some contact |})
      (Get (λ a',
        match finalOrder (order a') with
        | Some _ => Done
        | None => Done
        end))).

(** The six arrow functions passed to [subscribe] by the two
    [subscribeToEvents], in source order. *)
Definition on_product_add : hid := 0.
Definition on_product_remove : hid := 1.
Definition on_basket_update : hid := 2.
Definition on_order_init_catalog : hid := 3.
Definition on_order_init : hid := 4.
Definition on_order_submit : hid := 5.

(** Their bodies.  [subscribe] is typed so that a callback is only ever
    registered for the event whose payload it takes; every other
    combination is outside the program and given the empty body. *)
Definition handlers (h : hid) (e : AppEvent) : payload e → prog Components :=
  match h, e return payload e → prog Components with
  | 0, product_add => addToBasket
  | 1, product_remove => removeFromBasket
  | 2, basket_update => updateBasket
  | 3, order_init => initOrder
  | 4, order_init => setOrderDetails
  | 5, order_submit => submitOrder
  | _, _ => λ _, Done
  end.

(** [CatalogController.subscribeToEvents] *)
Definition CatalogController_subscribeToEvents
    (s : World Components) : World Components :=
  subscribe order_init on_order_init_catalog
    (subscribe basket_update on_basket_update
      (subscribe product_remove on_product_remove
        (subscribe product_add on_product_add s))).

(** [OrderController.subscribeToEvents] *)
Definition OrderController_subscribeToEvents
    (s : World Components) : World Components :=
  subscribe order_submit on_order_submit
    (subscribe order_init on_order_init s).

(** The field initialisers of the two classes. *)
Definition initial : Components :=
  {| catalog := {| products := []; basket := [] |};
     order := {| orderDetails := None; contactInfo := None |};
     console := [] |}.

(** [new EventDispatcher()], then one [CatalogController] and one
    [OrderController] constructed on it. *)
Definition app : World Components :=
  OrderController_subscribeToEvents
    (CatalogController_subscribeToEvents (new_EventDispatcher initial)).

(** The basket held by the catalog controller. *)
Definition basket_of (s : World Components) : list IProductCard :=
  basket (catalog (client s)).

(** The lines of the basket for a product identity. *)
Definition lines_for (pid : string) (b : list IProductCard)
    : list IProductCard :=
  filter (λ item, id (product item) = pid) b.

(** At most one line per product identity. *)
Definition unique_lines (b : list IProductCard) : Prop :=
  NoDup ((λ item, id (product item)) <$> b).

(** The subscriptions made by [CatalogController.subscribeToEvents] for
    the events that touch the basket are the only ones for these events. *)
Definition catalog_subscribed (s : World Components) : Prop :=
  listeners s product_add = [on_product_add] ∧
  listeners s product_remove = [on_product_remove] ∧
  listeners s basket_update = [on_basket_update].

(** The subscriptions of the two controllers for the order events. *)
Definition order_subscribed (s : World Components) : Prop :=
  listeners s order_init = [on_order_init_catalog; on_order_init] ∧
  listeners s order_submit = [on_order_submit].

(** The dispatches that reach the basket. *)
Inductive BasketEvent :=
| Add (p : IProduct)
| Remove (p : IProduct)
| Update (items : list IProductCard).

Definition basket_dispatch (fuel : nat) (ev : BasketEvent)
    (s : World Components) : Outcome Components :=
  match ev with
  | Add p => dispatch handlers fuel product_add p s
  | Remove p => dispatch handlers fuel product_remove p s
  | Update items => dispatch handlers fuel basket_update items s
  end.

(** The world after a sequence of such dispatches. *)
Definition basket_run (fuel : nat) (evs : list BasketEvent)
    (s : World Components) : World Components :=
  foldl (λ s1 ev, final (basket_dispatch fuel ev s1)) s evs.

(** A [basket:update] whose payload has at most one line per identity. *)
Definition consistent (ev : BasketEvent) : Prop :=
  match ev with
  | Update items => unique_lines items
  | _ => True
  end.

(** Dispatching [product:add] for each product of a list, in order. *)
Fixpoint add_all (fuel : nat) (ps : list IProduct) (s : World Components)
    : Outcome Components :=
  match ps with
  | [] => returns s
  | p :: ps' =>
      and_then (dispatch handlers fuel product_add p s) (add_all fuel ps')
  end.

End App.

(** ** Sample callbacks *)

Module Samples.
Import Bus.

(** Callback [0] unsubscribes callback [1] from the event it is called
    for and subscribes callback [2] to it; the others do nothing. *)
Definition reshuffling (h : hid) (e : AppEvent) (p : payload e) : prog unit :=
  match h with
  | 0 => Unsubscribe e 1 (Subscribe e 2 Done)
  | _ => Done
  end.

(** Callback [1] throws; the others do nothing. *)
Definition second_throws (h : hid) (e : AppEvent) (p : payload e) : prog unit :=
  match h with
  | 1 => Throw "boom"
  | _ => Done
  end.

(** No callback does anything. *)
Definition idle (h : hid) (e : AppEvent) (p : payload e) : prog unit := Done.

Definition bus : World unit := new_EventDispatcher ().

(** Every callback appends its own identity to a journal kept in the
    component state. *)
Definition recording (h : hid) (e : AppEvent) (p : payload e)
    : prog (list nat) :=
  Get (λ journal, Put (journal ++ [h]) Done).

Definition journal_bus : World (list nat) := new_EventDispatcher [].

Definition widget : IProduct :=
  {| id := "p1"; description := "A widget"; image := "widget.png";
     title := "Widget"; category := "tools"; price := Some 10%Z |}.

Definition gadget : IProduct :=
  {| id := "p2"; description := "A gadget"; image := "gadget.png";
     title := "Gadget"; category := "tools"; price := None |}.

Definition cash_main_st : IOrderDetails :=
  {| payment := "cash"; address := "Main St" |}.

Definition a_at_b : IContactInfo :=
  {| email := "a@b.com"; phone := "123" |}.

(** A [render] that writes the title into the region, and throws when
    the state has none. *)
Definition show_title (st : gmap string string) (region : string)
    : string * option string :=
  match st !! "title" with
  | Some t => (t, None)
  | None => (region, Some "no title")
  end.

Definition card : View.BaseView (V := string) (Region := string) :=
  {| View.element := "<div></div>";
     View.state := {[ "title" := "Widget"; "price" := "10" ]};
     View.rendered := [] |}.

End Samples.

(** ** Further parts of the source *)

Module Quiet.
Import Bus.

(** A callback body that calls neither [subscribe] nor [unsubscribe]. *)
Fixpoint leaves_subscriptions {U : Type} (c : prog U) : Prop :=
  match c with
  | Done | Throw _ => True
  | Subscribe _ _ _ | Unsubscribe _ _ _ => False
  | Dispatch _ _ k | Put _ k => leaves_subscriptions k
  | Get k => ∀ u, leaves_subscriptions (k u)
  | Try body catch k =>
      leaves_subscriptions body ∧ (∀ err, leaves_subscriptions (catch err)) ∧
      leaves_subscriptions k
  end.

(** The two worlds have the same registry and the same arrays. *)
Definition same_bus {U : Type} (s s' : World U) : Prop :=
  heap s' = heap s ∧ eventListeners s' = eventListeners s.

End Quiet.

Module Basket.

(** The identities of the lines, in basket order. *)
Definition identities (b : list IProductCard) : list string :=
  (λ item, id (product item)) <$> b.

End Basket.

Module Modal.
Section ModalView.
(** [Node] is the type of DOM nodes handed to [openModal]. *)
Context {Node : Type}.

(** What [ModalView] reads and writes of its element: the class list (a
    set of tokens) and the children of the first descendant of class
    [modal__content], when there is one. *)
Record ModalView := {
  classList : gset string;
  modal_content : option (list Node)
}.

(** [openModal(content?)]: [classList.add("modal_active")], and, when a
    content is given, [querySelector(".modal__content")?.replaceChildren]. *)
Definition openModal (content : option Node) (m : ModalView) : ModalView :=
  {| classList := {["modal_active"]} ∪ classList m;
     modal_content :=
       match content with
       | Some c => (λ _, [c]) <$> modal_content m
       | None => modal_content m
       end |}.

(** [closeModal()]: [classList.remove("modal_active")]. *)
Definition closeModal (m : ModalView) : ModalView :=
  {| classList := classList m ∖ {["modal_active"]};
     modal_content := modal_content m |}.

(** The overlay is shown. *)
Definition is_open (m : ModalView) : Prop := "modal_active" ∈ classList m.

End ModalView.
End Modal.

Module Clicks.
Import Bus.

(** The click listener that [BasketView.bindEvents] attaches to a button
    carrying [data-id]: [productName] is the value of that attribute, and
    [state] the state of the view.  The line is looked up by title. *)
Definition BasketView_remove_click {U : Type} (state : list IProductCard)
    (productName : string) : prog U :=
  match list_find (λ item, title (product item) = productName) state with
  | Some (_, item) => Dispatch product_remove (product item) Done
  | None => Done
  end.

End Clicks.

(** * Properties *)

Import Bus.

(** ** The store of subscriber arrays *)

Section BusFacts.
Context {U : Type}.
Implicit Types (s : World U) (o : Outcome U) (e : AppEvent) (h : hid).

Lemma heap_extends_refl s : heap_extends s s.
Proof. intros l arr Hl. exists []. by rewrite app_nil_r. Qed.

Lemma heap_extends_trans s1 s2 s3 :
  heap_extends s1 s2 → heap_extends s2 s3 → heap_extends s1 s3.
Proof.
  intros H12 H23 l arr Hl.
  destruct (H12 _ _ Hl) as [x1 H1]. destruct (H23 _ _ H1) as [x2 H2].
  exists (x1 ++ x2). by rewrite app_assoc.
Qed.

Lemma heap_extends_alloc s arr r u :
  heap_extends s {| heap := heap s ++ [arr]; eventListeners := r; client := u |}.
Proof.
  intros l a Hl. exists []. rewrite app_nil_r. cbn.
  by apply lookup_app_l_Some.
Qed.

Lemma heap_extends_push s l h r u :
  heap_extends s
    {| heap := alter (λ arr, arr ++ [h]) l (heap s);
       eventListeners := r; client := u |}.
Proof.
  intros l' a Hl. cbn. destruct (decide (l = l')) as [->|Hne].
  - exists [h]. by rewrite list_lookup_alter_eq, Hl.
  - exists []. by rewrite app_nil_r, list_lookup_alter_ne.
Qed.

Lemma subscribe_extends e h s : heap_extends s (subscribe e h s).
Proof.
  unfold subscribe. destruct (eventListeners s e) as [l|] eqn:He.
  - rewrite He. apply heap_extends_push.
  - cbn. rewrite fn_lookup_insert. cbn.
    eapply heap_extends_trans; [apply heap_extends_alloc|].
    apply (heap_extends_push
      {| heap := heap s ++ [[]];
         eventListeners := <[e:=Some (length (heap s))]> (eventListeners s);
         client := client s |}).
Qed.

Lemma unsubscribe_extends e h s : heap_extends s (unsubscribe e h s).
Proof.
  unfold unsubscribe. destruct (eventListeners s e) as [l|]; [|apply heap_extends_refl].
  destruct (heap s !! l); [apply heap_extends_alloc|apply heap_extends_refl].
Qed.

Lemma subscribe_well_formed e h s : well_formed s → well_formed (subscribe e h s).
Proof.
  intros [Hb Hi]. unfold subscribe.
  destruct (eventListeners s e) as [l|] eqn:He.
  - rewrite He. split; cbn.
    + intros e' l' H'. rewrite length_alter. eauto.
    + eauto.
  - cbn. rewrite fn_lookup_insert. cbn. split; cbn.
    + intros e' l'. rewrite length_alter, length_app. cbn.
      destruct (decide (e = e')) as [->|Hne].
      * rewrite fn_lookup_insert. intros [= <-]. lia.
      * rewrite fn_lookup_insert_ne by done. intros H'%Hb. lia.
    + intros e1 e2 l'.
      destruct (decide (e = e1)) as [<-|H1], (decide (e = e2)) as [<-|H2];
        rewrite ?fn_lookup_insert, ?fn_lookup_insert_ne by done; try done.
      * intros [= <-] H'%Hb. lia.
      * intros H'%Hb [= <-]. lia.
      * eauto.
Qed.

Lemma unsubscribe_well_formed e h s :
  well_formed s → well_formed (unsubscribe e h s).
Proof.
  intros [Hb Hi]. unfold unsubscribe.
  destruct (eventListeners s e) as [l|] eqn:He; [|done].
  destruct (heap s !! l) as [arr|] eqn:Hl; [|done].
  split; cbn.
  - intros e' l'. rewrite length_app. cbn.
    destruct (decide (e = e')) as [->|Hne].
    + rewrite fn_lookup_insert. intros [= <-]. lia.
    + rewrite fn_lookup_insert_ne by done. intros H'%Hb. lia.
  - intros e1 e2 l'.
    destruct (decide (e = e1)) as [<-|H1], (decide (e = e2)) as [<-|H2];
      rewrite ?fn_lookup_insert, ?fn_lookup_insert_ne by done; try done.
    + intros [= <-] H'%Hb. lia.
    + intros H'%Hb [= <-]. lia.
    + eauto.
Qed.

(** *** What every run of a callback preserves

    A reflexive and transitive relation between worlds that [subscribe],
    [unsubscribe] and an assignment to component state respect is
    respected by every callback body, hence by [forEach] and [dispatch]. *)
Section Preserved.
Variable R : World U → World U → Prop.
Hypothesis R_refl : ∀ s, R s s.
Hypothesis R_trans : ∀ s1 s2 s3, R s1 s2 → R s2 s3 → R s1 s3.
Hypothesis R_subscribe : ∀ e h s, R s (subscribe e h s).
Hypothesis R_unsubscribe : ∀ e h s, R s (unsubscribe e h s).
Hypothesis R_put : ∀ s u, R s (with_client s u).

Lemma and_then_preserves s o (k : World U → Outcome U) :
  R s (final o) → (∀ s1, R s1 (final (k s1))) → R s (final (and_then o k)).
Proof.
  intros Ho Hk. unfold and_then. destruct (status o); [|done..].
  cbn. eauto.
Qed.

Lemma exec_preserves disp (c : prog U) :
  (∀ e (p : payload e) s, R s (final (disp e p s))) →
  ∀ s, R s (final (exec disp c s)).
Proof.
  intros Hd. induction c as [|err|e h k IH|e h k IH|e p k IH|k IH|u k IH
                            |body IHb catch IHc k IHk]; intros s; cbn.
  - apply R_refl.
  - apply R_refl.
  - eapply R_trans; [apply R_subscribe|apply IH].
  - eapply R_trans; [apply R_unsubscribe|apply IH].
  - apply and_then_preserves; [apply Hd|apply IH].
  - apply IH.
  - eapply R_trans; [apply R_put|apply IH].
  - destruct (status (exec disp body s)) eqn:Hs.
    + apply and_then_preserves; [apply IHb|apply IHk].
    + cbn. eapply R_trans; [apply IHb|].
      apply and_then_preserves; [apply IHc|apply IHk].
    + apply and_then_preserves; [apply IHb|apply IHk].
Qed.

Lemma forEach_preserves (call : hid → World U → Outcome U) l :
  (∀ h s, R s (final (call h s))) →
  ∀ n k s, R s (final (forEach call l k n s)).
Proof.
  intros Hc. induction n as [|n IH]; intros k s; cbn; [apply R_refl|].
  destruct (heap s !! l ≫= _); [|apply IH].
  apply and_then_preserves; [apply Hc|apply IH].
Qed.

Lemma dispatch_with_preserves
    (call : ∀ e, payload e → hid → World U → Outcome U) :
  (∀ e (p : payload e) h s, R s (final (call e p h s))) →
  ∀ e (p : payload e) s, R s (final (dispatch_with call e p s)).
Proof.
  intros Hc e p s. unfold dispatch_with.
  destruct (eventListeners s e) as [l|]; [|apply R_refl].
  destruct (heap s !! l); [|apply R_refl].
  apply forEach_preserves. apply Hc.
Qed.

Variable handlers : hid → ∀ e : AppEvent, payload e → prog U.

Lemma invoke_preserves fuel :
  ∀ e (p : payload e) h s, R s (final (invoke handlers fuel e p h s)).
Proof.
  induction fuel as [|fuel IH]; intros e p h s; cbn; [apply R_refl|].
  apply exec_preserves. by apply dispatch_with_preserves.
Qed.

Lemma dispatch_preserves fuel e (p : payload e) s :
  R s (final (dispatch handlers fuel e p s)).
Proof. apply dispatch_with_preserves, invoke_preserves. Qed.

End Preserved.

Section Dispatching.
Variable handlers : hid → ∀ e : AppEvent, payload e → prog U.

Lemma invoke_S fuel e (p : payload e) h s :
  invoke handlers (S fuel) e p h s
  = {| status := status (exec (dispatch handlers fuel) (handlers h e p) s);
       final := final (exec (dispatch handlers fuel) (handlers h e p) s);
       calls := [Invoke e p h
                   (calls (exec (dispatch handlers fuel) (handlers h e p) s))] |}.
Proof. done. Qed.

Lemma invoke_extends fuel e (p : payload e) h s :
  heap_extends s (final (invoke handlers fuel e p h s)).
Proof.
  apply invoke_preserves;
    eauto using heap_extends_refl, heap_extends_trans, subscribe_extends,
      unsubscribe_extends.
  intros s0 u l arr Hl. exists []. by rewrite app_nil_r.
Qed.

Lemma dispatch_well_formed fuel e (p : payload e) s :
  well_formed s → well_formed (final (dispatch handlers fuel e p s)).
Proof.
  revert s. apply (dispatch_preserves (λ s s', well_formed s → well_formed s'));
    eauto using subscribe_well_formed, unsubscribe_well_formed.
Qed.

Lemma and_then_ext o (k k' : World U → Outcome U) :
  (status o = Normal → k (final o) = k' (final o)) →
  and_then o k = and_then o k'.
Proof.
  intros H. unfold and_then. destruct (status o); [|done..]. by rewrite H.
Qed.

(** [forEach] on the live array does what a loop over a copy taken
    before the loop does: the array only grows while the loop runs, and
    the loop stops at the length read at its start. *)
Lemma forEach_snapshot fuel e (p : payload e) l rest :
  ∀ pre ext s,
    heap s !! l = Some (pre ++ rest ++ ext) →
    forEach (invoke handlers fuel e p) l (length pre) (length rest) s
    = invoke_all handlers fuel e p rest s.
Proof.
  induction rest as [|h rest IH]; intros pre ext s Hl; [done|].
  cbn [forEach invoke_all length]. rewrite Hl. cbn [mbind option_bind].
  rewrite (lookup_app_r pre) by lia. rewrite Nat.sub_diag. cbn [lookup list_lookup].
  apply and_then_ext. intros _.
  destruct (invoke_extends fuel e p h s _ _ Hl) as [ext' Hl'].
  replace (S (length pre)) with (length (pre ++ [h]))
    by (rewrite length_app; cbn; lia).
  apply (IH _ (ext ++ ext')). etrans; [exact Hl'|]. f_equal.
  by rewrite <- !app_assoc.
Qed.

(** [dispatch] calls, in order, the callbacks that were in the array
    registered for the event when the dispatch started. *)
Lemma dispatch_invoke_all fuel e (p : payload e) s :
  dispatch handlers fuel e p s
  = invoke_all handlers fuel e p (listeners s e) s.
Proof.
  unfold dispatch, dispatch_with, listeners.
  destruct (eventListeners s e) as [l|]; [|done].
  destruct (heap s !! l) as [arr|] eqn:Hl; [|done].
  cbn. apply (forEach_snapshot fuel e p l arr [] []).
  by rewrite app_nil_r.
Qed.

Lemma and_then_assoc o (k1 k2 : World U → Outcome U) :
  and_then (and_then o k1) k2 = and_then o (λ s1, and_then (k1 s1) k2).
Proof.
  unfold and_then. destruct (status o) eqn:Ho; cbn; rewrite ?Ho; [|done..].
  destruct (status (k1 (final o))) eqn:H1; cbn; rewrite ?H1; [|done..].
  by rewrite app_assoc.
Qed.

Lemma returns_and_then s (k : World U → Outcome U) :
  and_then (returns s) k = k s.
Proof. unfold and_then. cbn. by destruct (k s). Qed.

Lemma invoke_all_app fuel e (p : payload e) hs1 hs2 s :
  invoke_all handlers fuel e p (hs1 ++ hs2) s
  = and_then (invoke_all handlers fuel e p hs1 s)
      (invoke_all handlers fuel e p hs2).
Proof.
  revert s. induction hs1 as [|h hs1 IH]; intros s.
  - symmetry. apply returns_and_then.
  - cbn [app invoke_all]. rewrite and_then_assoc.
    apply and_then_ext. intros _. apply IH.
Qed.

Lemma invoked_invoke fuel e (p : payload e) h s :
  invoked (invoke handlers fuel e p h s) = [h].
Proof. by destruct fuel. Qed.

Lemma invoked_and_then o (k : World U → Outcome U) :
  invoked (and_then o k)
  = match status o with
    | Normal => invoked o ++ invoked (k (final o))
    | _ => invoked o
    end.
Proof.
  unfold and_then, invoked. destruct (status o); [|done..].
  cbn. by rewrite map_app.
Qed.

Lemma status_and_then o (k : World U → Outcome U) :
  status (and_then o k)
  = match status o with
    | Normal => status (k (final o))
    | st => st
    end.
Proof. unfold and_then. by destruct (status o) eqn:Ho. Qed.

(** A dispatch over a copy [hs] calls a prefix of [hs] ... *)
Lemma invoke_all_prefix fuel e (p : payload e) hs s :
  invoked (invoke_all handlers fuel e p hs s) `prefix_of` hs.
Proof.
  revert s. induction hs as [|h hs IH]; intros s; cbn; [done|].
  rewrite invoked_and_then, invoked_invoke.
  destruct (status _).
  - apply (prefix_cons h), IH.
  - apply (prefix_cons h), prefix_nil.
  - apply (prefix_cons h), prefix_nil.
Qed.

(** ... and the whole of [hs] when every callback returned. *)
Lemma invoke_all_normal fuel e (p : payload e) hs s :
  status (invoke_all handlers fuel e p hs s) = Normal →
  invoked (invoke_all handlers fuel e p hs s) = hs.
Proof.
  revert s. induction hs as [|h hs IH]; intros s; cbn; [done|].
  rewrite status_and_then, invoked_and_then, invoked_invoke.
  destruct (status (invoke handlers fuel e p h s)); [|done..].
  intros H. cbn. f_equal. by apply IH.
Qed.

(** Every call made by the dispatch passes the dispatched payload. *)
Lemma invoke_all_calls fuel e (p : payload e) hs s :
  Forall (λ c, ∃ h nested, c = Invoke e p h nested)
    (calls (invoke_all handlers fuel e p hs s)).
Proof.
  revert s. induction hs as [|h hs IH]; intros s; cbn; [constructor|].
  unfold and_then.
  assert (Hone : Forall (λ c, ∃ h nested, c = Invoke e p h nested)
            (calls (invoke handlers fuel e p h s))).
  { destruct fuel; cbn; repeat constructor; eauto. }
  destruct (status _); [|done..]. cbn. apply Forall_app; eauto.
Qed.

(** *** The bound on nesting is only a bound

    A run that ends (normally or by an exception) within some nesting
    depth ends the same way with any larger one. *)
Lemma and_then_refines o (k k' : World U → Outcome U) :
  status (and_then o k) ≠ Diverged →
  (status o = Normal → status (k (final o)) ≠ Diverged →
   k' (final o) = k (final o)) →
  and_then o k' = and_then o k.
Proof.
  unfold and_then. destruct (status o) eqn:Ho; [|done..].
  cbn. intros Hk H. by rewrite H.
Qed.

Lemma and_then_not_diverged o (k : World U → Outcome U) :
  status (and_then o k) ≠ Diverged → status o ≠ Diverged.
Proof. unfold and_then. by destruct (status o) eqn:Ho; rewrite ?Ho. Qed.

Lemma exec_refines disp disp' (c : prog U) :
  refines disp disp' →
  ∀ s, status (exec disp c s) ≠ Diverged → exec disp' c s = exec disp c s.
Proof.
  intros Hd. induction c as [|err|e h k IH|e h k IH|e p k IH|k IH|u k IH
                            |body IHb catch IHc k IHk]; intros s; cbn;
    try done; try apply IH.
  - intros Hnd. rewrite (Hd e p s) by by eapply and_then_not_diverged.
    apply and_then_refines; [done|]. intros _. apply IH.
  - destruct (status (exec disp body s)) eqn:Hb.
    + intros Hnd. rewrite IHb by by rewrite Hb. rewrite Hb.
      apply and_then_refines; [done|]. intros _. apply IHk.
    + intros Hnd. rewrite IHb by by rewrite Hb. rewrite Hb.
      cbn in Hnd |- *.
      assert (and_then (exec disp' (catch err) (final (exec disp body s)))
                (exec disp' k)
              = and_then (exec disp (catch err) (final (exec disp body s)))
                  (exec disp k)) as ->; [|done].
      rewrite IHc by by eapply and_then_not_diverged.
      apply and_then_refines; [done|]. intros _. apply IHk.
    + intros Hnd. apply and_then_not_diverged in Hnd. by rewrite Hb in Hnd.
Qed.

Lemma forEach_refines (call call' : hid → World U → Outcome U) l :
  (∀ h s, status (call h s) ≠ Diverged → call' h s = call h s) →
  ∀ n k s, status (forEach call l k n s) ≠ Diverged →
    forEach call' l k n s = forEach call l k n s.
Proof.
  intros Hc. induction n as [|n IH]; intros k s; cbn; [done|].
  destruct (heap s !! l ≫= _) as [h|]; [|apply IH].
  intros Hnd. rewrite (Hc h s) by by eapply and_then_not_diverged.
  apply and_then_refines; [done|]. intros _. apply IH.
Qed.

Lemma invoke_fuel_S fuel :
  ∀ e (p : payload e) h s,
    status (invoke handlers fuel e p h s) ≠ Diverged →
    invoke handlers (S fuel) e p h s = invoke handlers fuel e p h s.
Proof.
  induction fuel as [|fuel IH]; intros e p h s; [done|].
  rewrite !invoke_S. cbn [status]. intros Hnd.
  rewrite (exec_refines (dispatch handlers fuel) (dispatch handlers (S fuel)));
    [done| |done].
  intros e' p' s'. unfold dispatch, dispatch_with.
  destruct (eventListeners s' e'); [|done].
  destruct (heap s' !! _); [|done].
  apply forEach_refines. intros h' s''. apply IH.
Qed.

Lemma dispatch_fuel_S fuel e (p : payload e) s :
  status (dispatch handlers fuel e p s) ≠ Diverged →
  dispatch handlers (S fuel) e p s = dispatch handlers fuel e p s.
Proof.
  unfold dispatch, dispatch_with.
  destruct (eventListeners s e); [|done].
  destruct (heap s !! _); [|done].
  apply forEach_refines. intros h' s'. apply invoke_fuel_S.
Qed.

End Dispatching.

(** *** The subscriber list seen through [subscribe] and [unsubscribe] *)

Lemma listeners_new_EventDispatcher (u : U) e :
  listeners (new_EventDispatcher u) e = [].
Proof. done. Qed.

Lemma listeners_subscribe e h s :
  well_formed s →
  listeners (subscribe e h s) e = listeners s e ++ [h].
Proof.
  intros [Hb Hi]. unfold listeners, subscribe.
  destruct (eventListeners s e) as [l|] eqn:He.
  - rewrite He. cbn. rewrite He, list_lookup_alter_eq.
    destruct (heap s !! l) eqn:Hl; cbn; [done|].
    apply Hb in He. apply lookup_ge_None in Hl. lia.
  - cbn. rewrite !fn_lookup_insert. cbn. rewrite fn_lookup_insert.
    rewrite list_lookup_alter_eq.
    by rewrite lookup_app_r, Nat.sub_diag by lia.
Qed.

Lemma listeners_subscribe_ne e e' h s :
  well_formed s → e ≠ e' →
  listeners (subscribe e h s) e' = listeners s e'.
Proof.
  intros [Hb Hi] Hne. unfold listeners, subscribe.
  destruct (eventListeners s e) as [l|] eqn:He.
  - rewrite He. cbn. destruct (eventListeners s e') as [l'|] eqn:He'; [|done].
    rewrite list_lookup_alter_ne; [done|].
    intros ->. by apply Hne, (Hi _ _ l').
  - cbn. rewrite !fn_lookup_insert. cbn. rewrite fn_lookup_insert_ne by done.
    destruct (eventListeners s e') as [l'|] eqn:He'; [|done].
    apply Hb in He'. rewrite list_lookup_alter_ne by lia.
    by rewrite lookup_app_l by lia.
Qed.

Lemma listeners_unsubscribe e h s :
  listeners (unsubscribe e h s) e = filter (λ cb, cb ≠ h) (listeners s e).
Proof.
  unfold listeners, unsubscribe.
  destruct (eventListeners s e) as [l|] eqn:He; [|by rewrite He].
  destruct (heap s !! l) as [arr|] eqn:Hl; cbn.
  - rewrite fn_lookup_insert. by rewrite lookup_app_r, Nat.sub_diag by lia.
  - by rewrite He, Hl.
Qed.

Lemma listeners_unsubscribe_ne e e' h s :
  well_formed s → e ≠ e' →
  listeners (unsubscribe e h s) e' = listeners s e'.
Proof.
  intros [Hb Hi] Hne. unfold listeners, unsubscribe.
  destruct (eventListeners s e) as [l|] eqn:He; [|done].
  destruct (heap s !! l) as [arr|] eqn:Hl; [|done]. cbn.
  rewrite fn_lookup_insert_ne by done.
  destruct (eventListeners s e') as [l'|] eqn:He'; [|done].
  apply Hb in He'. by rewrite lookup_app_l by lia.
Qed.

(** *** Events nobody subscribed to

    The entry of [eventListeners] for an event exists exactly when
    [subscribe] was called for that event: it is absent in a new bus, and
    code that never subscribes to the event leaves it absent. *)
Lemma subscribe_other_absent e e' h s :
  e' ≠ e → eventListeners s e = None →
  eventListeners (subscribe e' h s) e = None.
Proof.
  intros Hne He. unfold subscribe.
  destruct (eventListeners s e') as [l|] eqn:He'.
  - by rewrite He'.
  - cbn. rewrite fn_lookup_insert. cbn. by rewrite fn_lookup_insert_ne.
Qed.

Lemma unsubscribe_absent e e' h s :
  eventListeners s e = None → eventListeners (unsubscribe e' h s) e = None.
Proof.
  intros He. unfold unsubscribe.
  destruct (eventListeners s e') as [l|] eqn:He'; [|done].
  destruct (heap s !! l); [|done]. cbn.
  destruct (decide (e' = e)) as [->|Hne]; [congruence|].
  by rewrite fn_lookup_insert_ne.
Qed.

Lemma and_then_absent e o (k : World U → Outcome U) :
  eventListeners (final o) e = None →
  (∀ s1, eventListeners s1 e = None → eventListeners (final (k s1)) e = None) →
  eventListeners (final (and_then o k)) e = None.
Proof.
  intros Ho Hk. unfold and_then. destruct (status o); [|done..].
  cbn. by apply Hk.
Qed.

Lemma exec_absent e disp (c : prog U) :
  (∀ e' (p : payload e') s,
     eventListeners s e = None → eventListeners (final (disp e' p s)) e = None) →
  never_subscribes e c →
  ∀ s, eventListeners s e = None →
       eventListeners (final (exec disp c s)) e = None.
Proof.
  intros Hd. induction c as [|err|e' h k IH|e' h k IH|e' p k IH|k IH|u k IH
                            |body IHb catch IHc k IHk]; cbn; intros Hc s He.
  - done.
  - done.
  - destruct Hc as [Hne Hc]. by apply IH, subscribe_other_absent.
  - by apply IH, unsubscribe_absent.
  - apply and_then_absent; [by apply Hd|]. by apply IH.
  - by apply IH.
  - by apply IH.
  - destruct Hc as (Hb & Hcatch & Hk).
    destruct (status (exec disp body s)) eqn:Hs.
    + apply and_then_absent; [by apply IHb|]. by apply IHk.
    + cbn. apply and_then_absent; [by apply IHc, IHb|]. by apply IHk.
    + apply and_then_absent; [by apply IHb|]. by apply IHk.
Qed.

Lemma forEach_absent e (call : hid → World U → Outcome U) l :
  (∀ h s, eventListeners s e = None →
          eventListeners (final (call h s)) e = None) →
  ∀ n k s, eventListeners s e = None →
           eventListeners (final (forEach call l k n s)) e = None.
Proof.
  intros Hc. induction n as [|n IH]; intros k s He; cbn; [done|].
  destruct (heap s !! l ≫= _); [|by apply IH].
  apply and_then_absent; [by apply Hc|]. intros s1. apply IH.
Qed.

Lemma dispatch_with_absent e
    (call : ∀ e', payload e' → hid → World U → Outcome U) :
  (∀ e' (p : payload e') h s,
     eventListeners s e = None →
     eventListeners (final (call e' p h s)) e = None) →
  ∀ e' (p : payload e') s,
    eventListeners s e = None →
    eventListeners (final (dispatch_with call e' p s)) e = None.
Proof.
  intros Hc e' p s He. unfold dispatch_with.
  destruct (eventListeners s e'); [|done].
  destruct (heap s !! _); [|done].
  apply forEach_absent; [apply Hc|done].
Qed.

Lemma invoke_absent handlers e :
  (∀ h e' (p : payload e'), never_subscribes e (handlers h e' p)) →
  ∀ fuel e' (p : payload e') h s,
    eventListeners s e = None →
    eventListeners (final (invoke handlers fuel e' p h s)) e = None.
Proof.
  intros Hh. induction fuel as [|fuel IH]; intros e' p h s He; [done|].
  cbn. apply exec_absent; [|apply Hh|done].
  by apply dispatch_with_absent.
Qed.

Lemma dispatch_absent handlers e fuel e' (p : payload e') s :
  (∀ h e2 (p2 : payload e2), never_subscribes e (handlers h e2 p2)) →
  eventListeners s e = None →
  eventListeners (final (dispatch handlers fuel e' p s)) e = None.
Proof.
  intros Hh. apply dispatch_with_absent. by apply invoke_absent.
Qed.

Lemma never_subscribed_absent handlers fuel e (c : prog U) (u : U) :
  never_subscribes e c →
  (∀ h e' (p : payload e'), never_subscribes e (handlers h e' p)) →
  eventListeners
    (final (exec (dispatch handlers fuel) c (new_EventDispatcher u))) e
  = None.
Proof.
  intros Hc Hh. apply exec_absent; [|done|done].
  intros e' p s. by apply dispatch_absent.
Qed.

Lemma new_EventDispatcher_well_formed (u : U) :
  well_formed (new_EventDispatcher u).
Proof. split; intros; discriminate. Qed.

End BusFacts.

(** ** The event bus: subscription, dispatch order, failure *)

Section BusClaims.
Context {U : Type}.
Variable handlers : hid → ∀ e : AppEvent, payload e → prog U.
Implicit Types (s : World U) (e : AppEvent) (h : hid).

Lemma dispatch_prefix fuel e (p : payload e) s :
  invoked (dispatch handlers fuel e p s) `prefix_of` listeners s e.
Proof. rewrite dispatch_invoke_all. apply invoke_all_prefix. Qed.

Lemma subscribe_all_well_formed e hs s :
  well_formed s → well_formed (subscribe_all e hs s).
Proof.
  revert s. induction hs as [|h hs IH]; intros s Hwf; [done|].
  cbn. apply IH. by apply subscribe_well_formed.
Qed.

Lemma listeners_subscribe_all e hs s :
  well_formed s →
  listeners (subscribe_all e hs s) e = listeners s e ++ hs.
Proof.
  unfold subscribe_all. revert s.
  induction hs as [|h hs IH]; intros s Hwf; cbn [foldl].
  - by rewrite app_nil_r.
  - rewrite IH by by apply subscribe_well_formed.
    rewrite listeners_subscribe by done. by rewrite <- app_assoc.
Qed.

(** C3. After [subscribe(e, h)] immediately followed by
    [unsubscribe(e, h)], a [dispatch(e, p)] calls [h] zero times, whatever
    the payload, whatever was registered before and however the dispatch
    ends. *)
Theorem subscribe_unsubscribe_not_invoked fuel e (p : payload e) h s :
  h ∉ invoked (dispatch handlers fuel e p (unsubscribe e h (subscribe e h s))).
Proof.
  intros Hin.
  eapply elem_of_prefix in Hin; [|apply dispatch_prefix].
  rewrite listeners_unsubscribe in Hin.
  apply list_elem_of_filter in Hin as [Hne _]. by apply Hne.
Qed.

(** C4. A [dispatch(e, p)] calls exactly the callbacks registered for [e]
    when it starts: whatever the callbacks subscribe or unsubscribe while
    it runs, it calls a prefix of that list, and the whole list when every
    callback returns. *)
Theorem dispatch_calls_snapshot fuel e (p : payload e) s :
  invoked (dispatch handlers fuel e p s) `prefix_of` listeners s e ∧
  (status (dispatch handlers fuel e p s) = Normal →
   invoked (dispatch handlers fuel e p s) = listeners s e).
Proof.
  split; [apply dispatch_prefix|].
  rewrite dispatch_invoke_all. apply invoke_all_normal.
Qed.

Lemma final_and_then_cases o (k : World U → Outcome U) :
  final (and_then o k)
  = match status o with
    | Normal => final (k (final o))
    | _ => final o
    end.
Proof. unfold and_then. by destruct (status o). Qed.

Lemma invoke_all_run_in_order fuel e (p : payload e) hs :
  ∀ s,
    status (invoke_all handlers (S fuel) e p hs s)
    = status (run_in_order handlers fuel e p hs s) ∧
    final (invoke_all handlers (S fuel) e p hs s)
    = final (run_in_order handlers fuel e p hs s).
Proof.
  induction hs as [|h hs IH]; intros s; [done|].
  cbn [invoke_all run_in_order].
  rewrite !status_and_then, !final_and_then_cases, invoke_S.
  cbn [status final].
  destruct (status (exec (dispatch handlers fuel) (handlers h e p) s));
    [apply IH|done|done].
Qed.

(** C5. [subscribe] appends without looking for duplicates, so that after
    subscribing the callbacks of a list the subscriber list is the former
    one followed by that list, repeats included.  A dispatch runs the
    bodies of the registered callbacks in that order, each on the world
    the previous one left: it ends as running them one after the other
    ends, in the same world; and when every callback returns, the
    callbacks called are the subscriber list, each as many times as it was
    subscribed. *)
Theorem dispatch_in_subscription_order fuel fuel' e (p : payload e) hs s :
  well_formed s →
  listeners (subscribe_all e hs s) e = listeners s e ++ hs ∧
  (status (dispatch handlers fuel e p (subscribe_all e hs s)) = Normal →
   invoked (dispatch handlers fuel e p (subscribe_all e hs s))
   = listeners s e ++ hs) ∧
  status (dispatch handlers (S fuel') e p (subscribe_all e hs s))
  = status (run_in_order handlers fuel' e p (listeners s e ++ hs)
              (subscribe_all e hs s)) ∧
  final (dispatch handlers (S fuel') e p (subscribe_all e hs s))
  = final (run_in_order handlers fuel' e p (listeners s e ++ hs)
             (subscribe_all e hs s)).
Proof.
  intros Hwf. rewrite <- (listeners_subscribe_all e hs s Hwf).
  split_and!; [done| | |].
  - rewrite dispatch_invoke_all. apply invoke_all_normal.
  - rewrite dispatch_invoke_all. apply invoke_all_run_in_order.
  - rewrite dispatch_invoke_all. apply invoke_all_run_in_order.
Qed.

(** C6. When the callbacks registered before the k-th return and the
    k-th throws, [dispatch] ends with that exception and has called the
    callbacks up to the k-th and none after it. *)
Theorem dispatch_throw_aborts fuel e (p : payload e) s pre h post err :
  listeners s e = pre ++ h :: post →
  status (invoke_all handlers fuel e p pre s) = Normal →
  status (invoke handlers fuel e p h
            (final (invoke_all handlers fuel e p pre s))) = Threw err →
  status (dispatch handlers fuel e p s) = Threw err ∧
  invoked (dispatch handlers fuel e p s) = pre ++ [h].
Proof.
  intros Hl Hpre Hh. rewrite dispatch_invoke_all, Hl, invoke_all_app.
  rewrite status_and_then, invoked_and_then, Hpre.
  rewrite (invoke_all_normal _ _ _ _ _ _ Hpre). cbn [invoke_all].
  rewrite status_and_then, invoked_and_then, Hh, invoked_invoke.
  done.
Qed.

(** C10. Dispatching an event whose entry of [eventListeners] was never
    created returns normally, calls nothing and leaves the bus and the
    components as they were. *)
Theorem dispatch_unregistered_noop fuel e (p : payload e) s :
  eventListeners s e = None →
  status (dispatch handlers fuel e p s) = Normal ∧
  calls (dispatch handlers fuel e p s) = [] ∧
  final (dispatch handlers fuel e p s) = s.
Proof. intros He. unfold dispatch, dispatch_with. by rewrite He. Qed.

End BusClaims.

Lemma dispatch_calls_snapshot_witness :
  let s0 := subscribe_all product_view [0; 1] Samples.bus in
  let o := dispatch Samples.reshuffling 1 product_view Samples.widget s0 in
  status o = Normal ∧
  invoked o = listeners s0 product_view ∧
  invoked o = [0; 1] ∧
  listeners (final o) product_view = [0; 2] ∧
  invoked (dispatch Samples.reshuffling 1 product_view Samples.widget (final o))
  = [0; 2].
Proof.
  cbv zeta. split; [reflexivity|]. split.
  - apply (proj2 (dispatch_calls_snapshot Samples.reshuffling 1 product_view
                    Samples.widget
                    (subscribe_all product_view [0; 1] Samples.bus))).
    reflexivity.
  - repeat split; reflexivity.
Defined.

Lemma dispatch_in_subscription_order_witness :
  let s0 := subscribe_all modal_close [7; 3; 7] Samples.journal_bus in
  let o := dispatch Samples.recording 1 modal_close () s0 in
  listeners s0 modal_close = [7; 3; 7] ∧
  status o = Normal ∧
  invoked o = [7; 3; 7] ∧
  client (final o) = [7; 3; 7] ∧
  final o
  = final (run_in_order Samples.recording 0 modal_close () [7; 3; 7] s0).
Proof.
  cbv zeta.
  destruct (dispatch_in_subscription_order Samples.recording 1 0 modal_close ()
              [7; 3; 7] Samples.journal_bus
              (new_EventDispatcher_well_formed []))
    as (Hlist & Hcalled & Hstatus & Hfinal).
  split_and!.
  - exact Hlist.
  - reflexivity.
  - apply Hcalled. reflexivity.
  - reflexivity.
  - exact Hfinal.
Defined.

Lemma dispatch_throw_aborts_witness :
  let s0 := subscribe_all order_init [0; 1; 2] Samples.bus in
  let o := dispatch Samples.second_throws 1 order_init Samples.cash_main_st s0 in
  status o = Threw "boom" ∧ invoked o = [0; 1].
Proof.
  apply (dispatch_throw_aborts Samples.second_throws 1 order_init
           Samples.cash_main_st
           (subscribe_all order_init [0; 1; 2] Samples.bus) [0] 1 [2] "boom");
    reflexivity.
Defined.

Lemma dispatch_unregistered_noop_witness :
  let o := dispatch Samples.idle 0 product_add Samples.widget Samples.bus in
  status o = Normal ∧ calls o = [] ∧ final o = Samples.bus.
Proof.
  apply (dispatch_unregistered_noop Samples.idle 0 product_add Samples.widget
           Samples.bus).
  reflexivity.
Defined.

(** ** The catalog controller *)

Section Catalog.
Import App.
Implicit Types (s : World Components) (p : IProduct) (b : list IProductCard).

Lemma listeners_with_client s (u : Components) e :
  listeners (with_client s u) e = listeners s e.
Proof. done. Qed.

Lemma dispatch_basket_update fuel items s :
  listeners s basket_update = [on_basket_update] →
  dispatch handlers (S fuel) basket_update items s
  = {| status := Normal;
       final := with_client s (set_basket (client s) items);
       calls := [Invoke basket_update items on_basket_update []] |}.
Proof.
  intros Hu. rewrite dispatch_invoke_all, Hu. reflexivity.
Qed.

Lemma dispatch_product_add fuel p s :
  listeners s product_add = [on_product_add] →
  listeners s basket_update = [on_basket_update] →
  dispatch handlers (S (S fuel)) product_add p s
  = {| status := Normal;
       final := with_client s
                  (set_basket (client s) (addToBasket_lines (basket_of s) p));
       calls := [Invoke product_add p on_product_add
                   [Invoke basket_update (addToBasket_lines (basket_of s) p)
                      on_basket_update []]] |}.
Proof.
  intros Ha Hu. rewrite dispatch_invoke_all, Ha.
  cbn [invoke_all]. rewrite invoke_S.
  cbn [handlers on_product_add addToBasket exec].
  rewrite dispatch_basket_update by done.
  reflexivity.
Qed.

Lemma find_none_of_no_lines b p :
  lines_for (id p) b = [] →
  list_find (λ item, id (product item) = id p) b = None.
Proof.
  intros Hb. apply list_find_None, Forall_forall. intros x Hx HP.
  by apply (filter_nil_not_elem_of _ _ x Hb).
Qed.

(** The first [product:add] of an identity pushes its line. *)
Lemma lines_for_add_absent b p :
  lines_for (id p) b = [] →
  lines_for (id p) (addToBasket_lines b p)
  = [{| product := p; buttonText := None; itemCount := 1%Z |}].
Proof.
  intros Hb. unfold addToBasket_lines. rewrite find_none_of_no_lines by done.
  unfold lines_for in *. rewrite filter_app, Hb.
  by rewrite filter_cons_True.
Qed.

(** A later [product:add] increments the one line of that identity. *)
Lemma lines_for_add_present b p item :
  lines_for (id p) b = [item] →
  lines_for (id p) (addToBasket_lines b p) = [increment item].
Proof.
  intros Hb. unfold addToBasket_lines.
  destruct (list_find _ b) as [[i x]|] eqn:Hf.
  - apply list_find_Some in Hf as (Hi & Hx & _).
    unfold lines_for in *.
    rewrite insert_take_drop by (by eapply lookup_lt_Some).
    rewrite <- (take_drop_middle b i x Hi) in Hb.
    rewrite filter_app, filter_cons_True in Hb by done.
    rewrite filter_app, filter_cons_True by done.
    destruct (filter _ (take i b)) as [|y pre]; cbn in *.
    + by injection Hb as -> ->.
    + injection Hb as _ Hb. by destruct pre.
  - apply list_find_None in Hf.
    assert (Hin : item ∈ lines_for (id p) b) by (rewrite Hb; set_solver).
    apply list_elem_of_filter in Hin as [HP Hin].
    rewrite Forall_forall in Hf. by destruct (Hf item Hin).
Qed.

(** [product:add] keeps the identities of the lines distinct. *)
Lemma addToBasket_lines_unique b p :
  unique_lines b → unique_lines (addToBasket_lines b p).
Proof.
  unfold unique_lines, addToBasket_lines. intros Hb.
  destruct (list_find _ b) as [[i x]|] eqn:Hf.
  - apply list_find_Some in Hf as (Hi & Hx & _).
    rewrite list_fmap_insert, list_insert_id; [done|].
    by rewrite list_lookup_fmap, Hi.
  - apply list_find_None in Hf. rewrite Forall_forall in Hf.
    rewrite fmap_app. apply NoDup_app. split_and!; [done| |].
    + intros k (y & -> & Hy)%list_elem_of_fmap Hk%list_elem_of_singleton.
      by apply (Hf y Hy).
    + apply NoDup_singleton.
Qed.

Lemma removeFromBasket_lines_unique b p :
  unique_lines b → unique_lines (removeFromBasket_lines b p).
Proof.
  unfold unique_lines, removeFromBasket_lines. intros Hb.
  eapply sublist_NoDup; [exact Hb|].
  apply fmap_sublist, sublist_filter.
Qed.

(** Filtering out an identity that has no line returns the same list. *)
Lemma removeFromBasket_lines_absent b p :
  lines_for (id p) b = [] → removeFromBasket_lines b p = b.
Proof.
  unfold lines_for, removeFromBasket_lines.
  induction b as [|x b IH]; [done|].
  destruct (decide (id (product x) = id p)) as [Hx|Hx].
  - by rewrite filter_cons_True.
  - rewrite !filter_cons_False, filter_cons_True by tauto.
    intros Hb. by rewrite IH.
Qed.

Lemma dispatch_product_remove fuel p s :
  listeners s product_remove = [on_product_remove] →
  listeners s basket_update = [on_basket_update] →
  dispatch handlers (S (S fuel)) product_remove p s
  = {| status := Normal;
       final := with_client s
                  (set_basket (client s)
                     (removeFromBasket_lines (basket_of s) p));
       calls := [Invoke product_remove p on_product_remove
                   [Invoke basket_update
                      (removeFromBasket_lines (basket_of s) p)
                      on_basket_update []]] |}.
Proof.
  intros Hr Hu. rewrite dispatch_invoke_all, Hr.
  cbn [invoke_all]. rewrite invoke_S.
  cbn [handlers on_product_remove removeFromBasket exec].
  rewrite dispatch_basket_update by done.
  reflexivity.
Qed.

Lemma final_and_then {U} (o : Outcome U) (k : World U → Outcome U) :
  status o = Normal → final (and_then o k) = final (k (final o)).
Proof. intros Ho. unfold and_then. by rewrite Ho. Qed.

Lemma add_all_present fuel pid ps :
  ∀ s item,
    listeners s product_add = [on_product_add] →
    listeners s basket_update = [on_basket_update] →
    lines_for pid (basket_of s) = [item] →
    Forall (λ p, id p = pid) ps →
    status (add_all (S (S fuel)) ps s) = Normal ∧
    lines_for pid (basket_of (final (add_all (S (S fuel)) ps s)))
    = [{| product := product item; buttonText := buttonText item;
          itemCount := (itemCount item + Z.of_nat (length ps))%Z |}].
Proof.
  induction ps as [|p ps IH]; intros s item Ha Hu Hb Hps.
  - cbn. rewrite Hb, Z.add_0_r. by destruct item.
  - apply Forall_cons in Hps as [<- Hps]. cbn [add_all].
    rewrite status_and_then, final_and_then;
      rewrite dispatch_product_add by done; [|done]. cbn [status final].
    destruct (IH (with_client s (set_basket (client s)
                    (addToBasket_lines (basket_of s) p))) (increment item))
      as [Hst Hl]; [done|done| |done|].
    { by apply lines_for_add_present. }
    split; [done|]. rewrite Hl. cbn. do 2 f_equal. lia.
Qed.

(** C1. From a basket with no line for an identity, [n >= 1] dispatches
    of [product:add] with products of that identity all return and leave
    exactly one line of that identity, whose [itemCount] is [n] (and whose
    product is the first one added). *)
Theorem repeated_add_counts fuel pid p0 ps s :
  listeners s product_add = [on_product_add] →
  listeners s basket_update = [on_basket_update] →
  lines_for pid (basket_of s) = [] →
  Forall (λ p, id p = pid) (p0 :: ps) →
  status (add_all (S (S fuel)) (p0 :: ps) s) = Normal ∧
  lines_for pid (basket_of (final (add_all (S (S fuel)) (p0 :: ps) s)))
  = [{| product := p0; buttonText := None;
        itemCount := Z.of_nat (length (p0 :: ps)) |}].
Proof.
  intros Ha Hu Hb Hps. apply Forall_cons in Hps as [<- Hps]. cbn [add_all].
  rewrite status_and_then, final_and_then;
    rewrite dispatch_product_add by done; [|done]. cbn [status final].
  destruct (add_all_present fuel (id p0) ps
              (with_client s (set_basket (client s)
                 (addToBasket_lines (basket_of s) p0)))
              {| product := p0; buttonText := None; itemCount := 1%Z |})
    as [Hst Hl]; [done|done| |done|].
  { by apply lines_for_add_absent. }
  split; [done|]. rewrite Hl. cbn [product buttonText itemCount length].
  do 2 f_equal. lia.
Qed.

Lemma repeated_add_counts_witness :
  status (add_all 2 [Samples.widget; Samples.widget; Samples.widget] app)
  = Normal ∧
  lines_for "p1"
    (basket_of
       (final (add_all 2 [Samples.widget; Samples.widget; Samples.widget] app)))
  = [{| product := Samples.widget; buttonText := None; itemCount := 3%Z |}].
Proof.
  apply (repeated_add_counts 0 "p1" Samples.widget
           [Samples.widget; Samples.widget] app); try reflexivity.
  repeat constructor.
Defined.

Lemma basket_dispatch_step fuel ev s :
  catalog_subscribed s → unique_lines (basket_of s) → consistent ev →
  catalog_subscribed (final (basket_dispatch (S (S fuel)) ev s)) ∧
  unique_lines (basket_of (final (basket_dispatch (S (S fuel)) ev s))).
Proof.
  intros (Ha & Hr & Hu) Hb Hev. destruct ev as [p|p|items]; cbn [basket_dispatch].
  - rewrite dispatch_product_add by done. split; [done|].
    by apply addToBasket_lines_unique.
  - rewrite dispatch_product_remove by done. split; [done|].
    by apply removeFromBasket_lines_unique.
  - rewrite dispatch_basket_update by done. by split.
Qed.

(** C2, as the code has it. From a world in which the basket has at most
    one line per product identity, every sequence of [product:add],
    [product:remove] and [basket:update] dispatches keeps it so, provided
    each [basket:update] payload itself has at most one line per
    identity: [updateBasket] stores the payload as it comes. *)
Theorem basket_uniqueness_invariant fuel evs s :
  catalog_subscribed s → unique_lines (basket_of s) →
  Forall consistent evs →
  unique_lines (basket_of (basket_run (S (S fuel)) evs s)).
Proof.
  unfold basket_run. revert s.
  induction evs as [|ev evs IH]; intros s Hs Hb Hevs; [done|].
  apply Forall_cons in Hevs as [Hev Hevs]. cbn [foldl].
  destruct (basket_dispatch_step fuel ev s Hs Hb Hev) as [Hs' Hb'].
  by apply IH.
Qed.

Lemma app_catalog_subscribed : catalog_subscribed app.
Proof. repeat split. Qed.

Lemma basket_uniqueness_invariant_witness :
  unique_lines
    (basket_of
       (basket_run 2
          [Add Samples.widget; Add Samples.gadget; Add Samples.widget;
           Remove Samples.gadget;
           Update [{| product := Samples.gadget; buttonText := None;
                      itemCount := 4%Z |}]]
          app)).
Proof.
  apply (basket_uniqueness_invariant 0).
  - repeat split.
  - apply NoDup_nil_2.
  - repeat (apply Forall_cons_2; [exact I|]).
    apply Forall_cons_2; [apply NoDup_singleton|apply Forall_nil_2].
Defined.

(** C2 as stated fails: on the freshly constructed application, whose
    basket is empty, a [basket:update] carrying two lines of the same
    product leaves the controller with two lines for it. *)
Lemma basket_update_breaks_uniqueness :
  let items :=
    [{| product := Samples.widget; buttonText := None; itemCount := 1%Z |};
     {| product := Samples.widget; buttonText := None; itemCount := 2%Z |}] in
  unique_lines (basket_of app) ∧
  status (dispatch handlers 2 basket_update items app) = Normal ∧
  basket_of (final (dispatch handlers 2 basket_update items app)) = items ∧
  ¬ unique_lines
      (basket_of (final (dispatch handlers 2 basket_update items app))).
Proof.
  cbv zeta. split; [apply NoDup_nil_2|]. split; [reflexivity|].
  split; [reflexivity|].
  intros [Hn _]%NoDup_cons. apply Hn. apply list_elem_of_here.
Qed.

(** C7. A [product:remove] for a product that has no line in the basket
    returns normally and leaves the basket, and the whole world, as it
    was. *)
Theorem remove_absent_noop fuel p s :
  listeners s product_remove = [on_product_remove] →
  listeners s basket_update = [on_basket_update] →
  lines_for (id p) (basket_of s) = [] →
  status (dispatch handlers (S (S fuel)) product_remove p s) = Normal ∧
  basket_of (final (dispatch handlers (S (S fuel)) product_remove p s))
  = basket_of s ∧
  final (dispatch handlers (S (S fuel)) product_remove p s) = s.
Proof.
  intros Hr Hu Hb. rewrite dispatch_product_remove by done.
  rewrite removeFromBasket_lines_absent by done.
  split; [done|]. split; [done|].
  by destruct s as [hp el [[ps b] oc out]].
Qed.

Lemma remove_absent_noop_witness :
  let s := final (add_all 2 [Samples.widget; Samples.widget] app) in
  status (dispatch handlers 2 product_remove Samples.gadget s) = Normal ∧
  basket_of (final (dispatch handlers 2 product_remove Samples.gadget s))
  = basket_of s ∧
  final (dispatch handlers 2 product_remove Samples.gadget s) = s.
Proof.
  apply (remove_absent_noop 0 Samples.gadget
           (final (add_all 2 [Samples.widget; Samples.widget] app)));
    reflexivity.
Defined.

(** The scenario of the basket: the product added twice, then removed;
    the payloads of the two last [basket:update] dispatches. *)
Example add_twice_then_remove :
  let line n :=
    {| product := Samples.widget; buttonText := None; itemCount := n |} in
  let twice := add_all 2 [Samples.widget; Samples.widget] app in
  let removed := dispatch handlers 2 product_remove Samples.widget (final twice) in
  calls twice
  = [Invoke product_add Samples.widget on_product_add
       [Invoke basket_update [line 1%Z] on_basket_update []];
     Invoke product_add Samples.widget on_product_add
       [Invoke basket_update [line 2%Z] on_basket_update []]] ∧
  basket_of (final twice) = [line 2%Z] ∧
  calls removed
  = [Invoke product_remove Samples.widget on_product_remove
       [Invoke basket_update [] on_basket_update []]] ∧
  basket_of (final removed) = [].
Proof. cbv zeta. repeat split; reflexivity. Qed.

End Catalog.

(** ** The order controller *)

Section Order.
Import App.
Implicit Types (s : World Components).

Lemma dispatch_order_submit fuel c s :
  listeners s order_submit = [on_order_submit] →
  dispatch handlers (S fuel) order_submit c s
  = {| status := Normal;
       final := with_client s
                  (set_order (client s)
                     {| orderDetails := orderDetails (order (client s));
                        contactInfo := Some c |});
       calls := [Invoke order_submit c on_order_submit []] |}.
Proof.
  intros Hs. rewrite dispatch_invoke_all, Hs.
  cbn [invoke_all]. rewrite invoke_S.
  cbn [handlers on_order_submit submitOrder exec].
  by destruct (finalOrder _).
Qed.

Lemma dispatch_order_init fuel d s :
  listeners s order_init = [on_order_init_catalog; on_order_init] →
  dispatch handlers (S fuel) order_init d s
  = {| status := Normal;
       final := with_client s
                  {| catalog := catalog (client s);
                     order := {| orderDetails := Some d;
                                 contactInfo := contactInfo (order (client s)) |};
                     console := console (client s) ++ [d] |};
       calls := [Invoke order_init d on_order_init_catalog [];
                 Invoke order_init d on_order_init []] |}.
Proof.
  intros Hs. rewrite dispatch_invoke_all, Hs. reflexivity.
Qed.



End Order.

(** ** The view base *)

Section ViewClaims.
Import View.
Context {V Region : Type}.
Variable render_region : gmap string V → Region → Region * option string.

(** C9. [updateState(u)] makes the state the shallow merge of the old
    state with [u] (a field of [u] has [u]'s value, any other field keeps
    its old value) and calls [render] exactly once, on the merged
    state. *)
Theorem updateState_merges_and_renders
    (u : gmap string V) (v : BaseView) :
  state (updateState render_region u v).1 = u ∪ state v ∧
  (∀ field,
     state (updateState render_region u v).1 !! field
     = match u !! field with
       | Some x => Some x
       | None => state v !! field
       end) ∧
  rendered (updateState render_region u v).1 = rendered v ++ [u ∪ state v] ∧
  (element (updateState render_region u v).1,
   (updateState render_region u v).2)
  = render_region (u ∪ state v) (element v).
Proof.
  split; [done|]. split; [|split; [done|]].
  - intros field. cbn. destruct (u !! field) as [x|] eqn:Hu.
    + by apply lookup_union_Some_l.
    + by apply lookup_union_r.
  - cbn. by destruct (render_region _ _).
Qed.

End ViewClaims.

Example updateState_card :
  let v := (View.updateState Samples.show_title
              {[ "price" := "12"; "image" := "w.png" ]} Samples.card).1 in
  View.state v
  = {[ "title" := "Widget"; "price" := "12"; "image" := "w.png" ]} ∧
  View.rendered v = [View.state v] ∧
  View.element v = "Widget".
Proof. cbv zeta. repeat split; reflexivity. Qed.

(** * Further properties of the source *)

(** ** The event bus *)

Section MoreBus.
Import Quiet.
Context {U : Type}.
Variable handlers : hid → ∀ e : AppEvent, payload e → prog U.
Implicit Types (s : World U) (e : AppEvent) (h : hid).

Lemma filter_out_absent h (l : list nat) :
  h ∉ l → filter (λ cb, cb ≠ h) l = l.
Proof.
  induction l as [|x l IH]; [done|].
  intros [Hx Hl]%not_elem_of_cons.
  rewrite filter_cons_True by congruence. by rewrite IH.
Qed.

(** X1. [unsubscribe(e, h)] removes every registration of [h] for [e],
    however many there are, keeps the other callbacks in their order, and
    doing it again changes nothing. *)
Theorem unsubscribe_removes_every_registration e h s :
  listeners (unsubscribe e h s) e = filter (λ cb, cb ≠ h) (listeners s e) ∧
  (h ∉ listeners (unsubscribe e h s) e) ∧
  listeners (unsubscribe e h (unsubscribe e h s)) e
  = listeners (unsubscribe e h s) e.
Proof.
  assert (Hnot : h ∉ listeners (unsubscribe e h s) e).
  { rewrite listeners_unsubscribe. intros [Hne _]%list_elem_of_filter.
    by apply Hne. }
  split_and!; [apply listeners_unsubscribe|done|].
  rewrite (listeners_unsubscribe e h (unsubscribe e h s)).
  by apply filter_out_absent.
Qed.

(** X2. [unsubscribe(e, h)] for a callback that is not registered for
    [e] leaves the list of [e] as it is. *)
Theorem unsubscribe_unregistered_keeps_list e h s :
  h ∉ listeners s e →
  listeners (unsubscribe e h s) e = listeners s e.
Proof.
  intros Hh. rewrite listeners_unsubscribe. by apply filter_out_absent.
Qed.

(** X3. Subscriptions are per event: [subscribe] and [unsubscribe] for
    one event leave the list of every other event as it is. *)
Theorem subscriptions_are_per_event e e' h s :
  well_formed s → e ≠ e' →
  listeners (subscribe e h s) e' = listeners s e' ∧
  listeners (unsubscribe e h s) e' = listeners s e'.
Proof.
  intros Hwf Hne. split.
  - by apply listeners_subscribe_ne.
  - by apply listeners_unsubscribe_ne.
Qed.

(** X4. Whatever code runs on a new bus, every array registered
    afterwards exists and no array is registered for two events. *)
Theorem reachable_well_formed fuel (c : prog U) (u : U) :
  well_formed (final (exec (dispatch handlers fuel) c (new_EventDispatcher u))).
Proof.
  apply (exec_preserves (λ s s', well_formed s → well_formed s'));
    eauto using subscribe_well_formed, unsubscribe_well_formed,
      new_EventDispatcher_well_formed.
  intros e p s. by apply dispatch_well_formed.
Qed.

Lemma same_bus_refl s : same_bus s s.
Proof. done. Qed.

Lemma same_bus_trans s1 s2 s3 :
  same_bus s1 s2 → same_bus s2 s3 → same_bus s1 s3.
Proof. intros [H1 H2] [H3 H4]. split; congruence. Qed.

Lemma and_then_same_bus s o (k : World U → Outcome U) :
  same_bus s (final o) → (∀ s1, same_bus s1 (final (k s1))) →
  same_bus s (final (and_then o k)).
Proof.
  intros Ho Hk. unfold and_then. destruct (status o); [|done..].
  cbn. eapply same_bus_trans; [exact Ho|apply Hk].
Qed.

Lemma exec_same_bus disp (c : prog U) :
  (∀ e (p : payload e) s, same_bus s (final (disp e p s))) →
  leaves_subscriptions c →
  ∀ s, same_bus s (final (exec disp c s)).
Proof.
  intros Hd. induction c as [|err|e h k IH|e h k IH|e p k IH|k IH|u k IH
                            |body IHb catch IHc k IHk]; cbn; intros Hc s;
    try done.
  - apply and_then_same_bus; [apply Hd|]. by apply IH.
  - by apply IH.
  - eapply same_bus_trans; [|by apply IH]. done.
  - destruct Hc as (Hb & Hcatch & Hk).
    destruct (status (exec disp body s)) eqn:Hs.
    + apply and_then_same_bus; [by apply IHb|]. by apply IHk.
    + cbn. eapply same_bus_trans; [by apply IHb|].
      apply and_then_same_bus; [by apply IHc|]. by apply IHk.
    + apply and_then_same_bus; [by apply IHb|]. by apply IHk.
Qed.

Lemma forEach_same_bus (call : hid → World U → Outcome U) l :
  (∀ h s, same_bus s (final (call h s))) →
  ∀ n k s, same_bus s (final (forEach call l k n s)).
Proof.
  intros Hc. induction n as [|n IH]; intros k s; cbn; [done|].
  destruct (heap s !! l ≫= _); [|apply IH].
  apply and_then_same_bus; [apply Hc|apply IH].
Qed.

Lemma dispatch_with_same_bus
    (call : ∀ e, payload e → hid → World U → Outcome U) :
  (∀ e (p : payload e) h s, same_bus s (final (call e p h s))) →
  ∀ e (p : payload e) s, same_bus s (final (dispatch_with call e p s)).
Proof.
  intros Hc e p s. unfold dispatch_with.
  destruct (eventListeners s e); [|done].
  destruct (heap s !! _); [|done].
  apply forEach_same_bus, Hc.
Qed.

Lemma invoke_same_bus :
  (∀ h e (p : payload e), leaves_subscriptions (handlers h e p)) →
  ∀ fuel e (p : payload e) h s,
    same_bus s (final (invoke handlers fuel e p h s)).
Proof.
  intros Hh. induction fuel as [|fuel IH]; intros e p h s; [done|].
  cbn. apply exec_same_bus; [|apply Hh].
  by apply dispatch_with_same_bus.
Qed.

Lemma listeners_same_bus s s' e :
  same_bus s s' → listeners s' e = listeners s e.
Proof. intros [Hh He]. unfold listeners. by rewrite Hh, He. Qed.

(** X5. [dispatch] changes no subscription by itself: when no callback
    calls [subscribe] or [unsubscribe], the registry and every subscriber
    list are after a dispatch what they were before, however it ends. *)
Theorem quiet_dispatch_keeps_subscriptions fuel e (p : payload e) s :
  (∀ h e' (p' : payload e'), leaves_subscriptions (handlers h e' p')) →
  same_bus s (final (dispatch handlers fuel e p s)) ∧
  (∀ e', listeners (final (dispatch handlers fuel e p s)) e' = listeners s e').
Proof.
  intros Hh.
  assert (Hsame : same_bus s (final (dispatch handlers fuel e p s))).
  { apply dispatch_with_same_bus. by apply invoke_same_bus. }
  split; [done|]. intros e'. by apply listeners_same_bus.
Qed.

(** X6. Dispatching an event whose subscriber list is empty (never
    subscribed to, or every callback unsubscribed since) returns
    normally, calls nothing and changes nothing. *)
Theorem dispatch_empty_list_noop fuel e (p : payload e) s :
  listeners s e = [] →
  status (dispatch handlers fuel e p s) = Normal ∧
  calls (dispatch handlers fuel e p s) = [] ∧
  final (dispatch handlers fuel e p s) = s.
Proof. intros Hl. by rewrite dispatch_invoke_all, Hl. Qed.

End MoreBus.

Lemma unsubscribe_unregistered_keeps_list_witness :
  let s := subscribe_all product_view [3; 4; 3] Samples.bus in
  listeners (unsubscribe product_view 5 s) product_view = [3; 4; 3].
Proof.
  apply (unsubscribe_unregistered_keeps_list product_view 5
           (subscribe_all product_view [3; 4; 3] Samples.bus)).
  vm_compute. intros H. repeat (apply elem_of_cons in H as [H|H]; [done|]).
  by apply elem_of_nil in H.
Defined.

Lemma subscriptions_are_per_event_witness :
  let s := subscribe_all product_view [3; 4] Samples.bus in
  listeners (subscribe modal_close 3 s) product_view = [3; 4] ∧
  listeners (unsubscribe modal_close 3 s) product_view = [3; 4].
Proof.
  apply (subscriptions_are_per_event modal_close product_view).
  - apply subscribe_all_well_formed, new_EventDispatcher_well_formed.
  - discriminate.
Defined.

Lemma dispatch_empty_list_noop_witness :
  let s := unsubscribe modal_close 1 (subscribe modal_close 1 Samples.bus) in
  eventListeners s modal_close = Some 1 ∧
  status (dispatch Samples.idle 0 modal_close () s) = Normal ∧
  calls (dispatch Samples.idle 0 modal_close () s) = [] ∧
  final (dispatch Samples.idle 0 modal_close () s) = s.
Proof.
  split; [reflexivity|].
  apply (dispatch_empty_list_noop Samples.idle 0 modal_close ()
           (unsubscribe modal_close 1 (subscribe modal_close 1 Samples.bus))).
  reflexivity.
Defined.

(** ** The catalog controller, continued *)

Section MoreCatalog.
Import App Quiet Basket.
Implicit Types (s : World Components) (p : IProduct) (b : list IProductCard).

Lemma handlers_leave_subscriptions h e (p : payload e) :
  leaves_subscriptions (handlers h e p).
Proof.
  revert p. destruct h as [|[|[|[|[|[|h]]]]]]; destruct e; intros p; cbn;
    try done.
  intros a a'. by destruct (finalOrder _).
Qed.

Lemma quiet_dispatch_keeps_subscriptions_witness :
  same_bus app (final (dispatch handlers 2 product_add Samples.widget app)) ∧
  (∀ e', listeners (final (dispatch handlers 2 product_add Samples.widget app)) e'
         = listeners app e').
Proof.
  apply (quiet_dispatch_keeps_subscriptions handlers 2 product_add
           Samples.widget app).
  intros h e p. apply handlers_leave_subscriptions.
Defined.

Lemma lines_for_remove_same b p :
  lines_for (id p) (removeFromBasket_lines b p) = [].
Proof.
  unfold lines_for, removeFromBasket_lines.
  induction b as [|x b IH]; [done|].
  destruct (decide (id (product x) = id p)) as [Hx|Hx].
  - by rewrite filter_cons_False by tauto.
  - by rewrite filter_cons_True, filter_cons_False.
Qed.

Lemma lines_for_remove_other b p q :
  q ≠ id p → lines_for q (removeFromBasket_lines b p) = lines_for q b.
Proof.
  intros Hq. unfold lines_for, removeFromBasket_lines.
  induction b as [|x b IH]; [done|].
  destruct (decide (id (product x) = id p)) as [Hx|Hx].
  - rewrite filter_cons_False by tauto.
    by rewrite (filter_cons_False _ x b) by congruence.
  - rewrite filter_cons_True by done.
    destruct (decide (id (product x) = q)) as [Hxq|Hxq].
    + rewrite !filter_cons_True by done. by rewrite IH.
    + by rewrite !filter_cons_False.
Qed.

Lemma identities_remove b p :
  identities (removeFromBasket_lines b p)
  = filter (λ i, i ≠ id p) (identities b).
Proof.
  unfold identities, removeFromBasket_lines.
  induction b as [|x b IH]; [done|]. cbn [fmap list_fmap].
  destruct (decide (id (product x) = id p)) as [Hx|Hx].
  - rewrite !filter_cons_False by tauto. apply IH.
  - rewrite !filter_cons_True by done. cbn. f_equal. apply IH.
Qed.

(** X7. [product:remove] deletes the line of the product whatever its
    count, leaves the lines of every other identity as they are, and
    keeps the remaining lines in their order. *)
Theorem remove_deletes_line fuel p s :
  listeners s product_remove = [on_product_remove] →
  listeners s basket_update = [on_basket_update] →
  status (dispatch handlers (S (S fuel)) product_remove p s) = Normal ∧
  lines_for (id p)
    (basket_of (final (dispatch handlers (S (S fuel)) product_remove p s)))
  = [] ∧
  (∀ q, q ≠ id p →
     lines_for q
       (basket_of (final (dispatch handlers (S (S fuel)) product_remove p s)))
     = lines_for q (basket_of s)) ∧
  identities
    (basket_of (final (dispatch handlers (S (S fuel)) product_remove p s)))
  = filter (λ i, i ≠ id p) (identities (basket_of s)).
Proof.
  intros Hr Hu. rewrite dispatch_product_remove by done.
  split_and!; [done| | |].
  - apply lines_for_remove_same.
  - intros q Hq. by apply lines_for_remove_other.
  - apply identities_remove.
Qed.

Lemma remove_deletes_line_witness :
  let s := final (add_all 2 [Samples.widget; Samples.gadget; Samples.widget] app) in
  let o := dispatch handlers 2 product_remove Samples.widget s in
  status o = Normal ∧
  lines_for "p1" (basket_of (final o)) = [] ∧
  (∀ q, q ≠ "p1" →
     lines_for q (basket_of (final o)) = lines_for q (basket_of s)) ∧
  identities (basket_of (final o))
  = filter (λ i, i ≠ "p1") (identities (basket_of s)).
Proof.
  apply (remove_deletes_line 0 Samples.widget
           (final (add_all 2 [Samples.widget; Samples.gadget; Samples.widget]
                     app))); reflexivity.
Defined.

Lemma lines_for_add_other b p q :
  q ≠ id p → lines_for q (addToBasket_lines b p) = lines_for q b.
Proof.
  intros Hq. unfold addToBasket_lines, lines_for.
  destruct (list_find _ b) as [[i x]|] eqn:Hf.
  - apply list_find_Some in Hf as (Hi & Hx & _).
    rewrite insert_take_drop by (by eapply lookup_lt_Some).
    rewrite <- (take_drop_middle b i x Hi) at 3.
    rewrite !filter_app. f_equal.
    rewrite !filter_cons_False; [done|congruence|cbn; congruence].
  - rewrite filter_app, filter_cons_False by (cbn; congruence).
    by rewrite app_nil_r.
Qed.

(** X8. [product:add] touches only the line of the added product: the
    lines of every other identity are afterwards what they were. *)
Theorem add_keeps_other_lines fuel p q s :
  listeners s product_add = [on_product_add] →
  listeners s basket_update = [on_basket_update] →
  q ≠ id p →
  lines_for q (basket_of (final (dispatch handlers (S (S fuel)) product_add p s)))
  = lines_for q (basket_of s).
Proof.
  intros Ha Hu Hq. rewrite dispatch_product_add by done.
  by apply lines_for_add_other.
Qed.

Lemma add_keeps_other_lines_witness :
  let s := final (add_all 2 [Samples.gadget; Samples.gadget] app) in
  lines_for "p2"
    (basket_of (final (dispatch handlers 2 product_add Samples.widget s)))
  = lines_for "p2" (basket_of s).
Proof.
  apply (add_keeps_other_lines 0 Samples.widget "p2"
           (final (add_all 2 [Samples.gadget; Samples.gadget] app)));
    [reflexivity|reflexivity|discriminate].
Defined.

(** X9. Adding a product that has no line and removing it again gives
    back the world as it was: same lines, same order. *)
Theorem add_then_remove_restores fuel p s :
  listeners s product_add = [on_product_add] →
  listeners s product_remove = [on_product_remove] →
  listeners s basket_update = [on_basket_update] →
  lines_for (id p) (basket_of s) = [] →
  status (and_then (dispatch handlers (S (S fuel)) product_add p s)
            (dispatch handlers (S (S fuel)) product_remove p)) = Normal ∧
  final (and_then (dispatch handlers (S (S fuel)) product_add p s)
           (dispatch handlers (S (S fuel)) product_remove p)) = s.
Proof.
  intros Ha Hr Hu Hb.
  rewrite status_and_then, final_and_then;
    rewrite dispatch_product_add by done; [|done]. cbn [status final].
  rewrite dispatch_product_remove by done. cbn [status final].
  split; [done|]. unfold basket_of. cbn.
  unfold addToBasket_lines. rewrite find_none_of_no_lines by done.
  unfold removeFromBasket_lines.
  rewrite filter_app, filter_cons_False by (cbn; tauto).
  fold (removeFromBasket_lines (basket (catalog (client s))) p).
  rewrite removeFromBasket_lines_absent by done. rewrite app_nil_r.
  by destruct s as [hp el [[ps b] oc out]].
Qed.

Lemma add_then_remove_restores_witness :
  let s := final (add_all 2 [Samples.gadget; Samples.gadget] app) in
  status (and_then (dispatch handlers 2 product_add Samples.widget s)
            (dispatch handlers 2 product_remove Samples.widget)) = Normal ∧
  final (and_then (dispatch handlers 2 product_add Samples.widget s)
           (dispatch handlers 2 product_remove Samples.widget)) = s.
Proof.
  apply (add_then_remove_restores 0 Samples.widget
           (final (add_all 2 [Samples.gadget; Samples.gadget] app)));
    reflexivity.
Defined.

Lemma identities_add b p :
  identities (addToBasket_lines b p)
  = identities b ++
    (if bool_decide (id p ∈ identities b) then [] else [id p]).
Proof.
  unfold addToBasket_lines, identities.
  destruct (list_find _ b) as [[i x]|] eqn:Hf.
  - apply list_find_Some in Hf as (Hi & Hx & _).
    rewrite bool_decide_eq_true_2.
    + rewrite app_nil_r, list_fmap_insert, list_insert_id; [done|].
      by rewrite list_lookup_fmap, Hi.
    + apply list_elem_of_fmap. exists x. split; [done|].
      by eapply list_elem_of_lookup_2.
  - apply list_find_None in Hf. rewrite Forall_forall in Hf.
    rewrite bool_decide_eq_false_2.
    + by rewrite fmap_app.
    + intros (y & Hy & Hin)%list_elem_of_fmap. by apply (Hf y Hin).
Qed.

(** X11. [product:add] never reorders the basket: the identities of the
    lines stay in place, and an identity that had no line is appended at
    the end. *)
Theorem add_keeps_order fuel p s :
  listeners s product_add = [on_product_add] →
  listeners s basket_update = [on_basket_update] →
  identities (basket_of (final (dispatch handlers (S (S fuel)) product_add p s)))
  = identities (basket_of s) ++
    (if bool_decide (id p ∈ identities (basket_of s)) then [] else [id p]).
Proof.
  intros Ha Hu. rewrite dispatch_product_add by done. apply identities_add.
Qed.

Lemma add_keeps_order_witness :
  let s := final (add_all 2 [Samples.gadget; Samples.widget] app) in
  identities (basket_of (final (dispatch handlers 2 product_add Samples.gadget s)))
  = ["p2"; "p1"].
Proof.
  apply (add_keeps_order 0 Samples.gadget
           (final (add_all 2 [Samples.gadget; Samples.widget] app)));
    reflexivity.
Defined.

(** X12. [product:add] and [product:remove] each publish exactly one
    [basket:update], whose payload is the basket as the controller holds
    it afterwards; the only callback called for it is the controller's
    own, which publishes nothing further. *)
Theorem basket_change_is_published fuel p s :
  catalog_subscribed s →
  calls (dispatch handlers (S (S fuel)) product_add p s)
  = [Invoke product_add p on_product_add
       [Invoke basket_update
          (basket_of (final (dispatch handlers (S (S fuel)) product_add p s)))
          on_basket_update []]] ∧
  calls (dispatch handlers (S (S fuel)) product_remove p s)
  = [Invoke product_remove p on_product_remove
       [Invoke basket_update
          (basket_of (final (dispatch handlers (S (S fuel)) product_remove p s)))
          on_basket_update []]].
Proof.
  intros (Ha & Hr & Hu).
  by rewrite dispatch_product_add, dispatch_product_remove.
Qed.

Lemma basket_change_is_published_witness :
  calls (dispatch handlers 2 product_add Samples.widget app)
  = [Invoke product_add Samples.widget on_product_add
       [Invoke basket_update
          (basket_of (final (dispatch handlers 2 product_add Samples.widget app)))
          on_basket_update []]] ∧
  calls (dispatch handlers 2 product_remove Samples.widget app)
  = [Invoke product_remove Samples.widget on_product_remove
       [Invoke basket_update
          (basket_of (final (dispatch handlers 2 product_remove Samples.widget app)))
          on_basket_update []]].
Proof.
  apply (basket_change_is_published 0 Samples.widget app). repeat split.
Defined.

(** X13. The two controllers do not touch each other's state: the basket
    events leave the order controller and the console as they are, and the
    order events leave the catalog controller as it is; [order:init]
    prints its payload once. *)
Theorem controllers_are_independent fuel ev d c s :
  catalog_subscribed s → order_subscribed s →
  (order (client (final (basket_dispatch (S (S fuel)) ev s))) = order (client s) ∧
   console (client (final (basket_dispatch (S (S fuel)) ev s)))
   = console (client s)) ∧
  (catalog (client (final (dispatch handlers (S fuel) order_init d s)))
   = catalog (client s) ∧
   console (client (final (dispatch handlers (S fuel) order_init d s)))
   = console (client s) ++ [d]) ∧
  (catalog (client (final (dispatch handlers (S fuel) order_submit c s)))
   = catalog (client s) ∧
   console (client (final (dispatch handlers (S fuel) order_submit c s)))
   = console (client s)).
Proof.
  intros (Ha & Hr & Hu) (Hi & Hs). split_and!.
  - destruct ev; cbn [basket_dispatch];
      by rewrite ?dispatch_product_add, ?dispatch_product_remove,
        ?dispatch_basket_update.
  - destruct ev; cbn [basket_dispatch];
      by rewrite ?dispatch_product_add, ?dispatch_product_remove,
        ?dispatch_basket_update.
  - by rewrite dispatch_order_init.
  - by rewrite dispatch_order_init.
  - by rewrite dispatch_order_submit.
  - by rewrite dispatch_order_submit.
Qed.

Lemma controllers_are_independent_witness :
  let ev := Add Samples.widget in
  let d := Samples.cash_main_st in
  let c := Samples.a_at_b in
  (order (client (final (basket_dispatch 2 ev app))) = order (client app) ∧
   console (client (final (basket_dispatch 2 ev app))) = console (client app)) ∧
  (catalog (client (final (dispatch handlers 1 order_init d app)))
   = catalog (client app) ∧
   console (client (final (dispatch handlers 1 order_init d app)))
   = console (client app) ++ [d]) ∧
  (catalog (client (final (dispatch handlers 1 order_submit c app)))
   = catalog (client app) ∧
   console (client (final (dispatch handlers 1 order_submit c app)))
   = console (client app)).
Proof.
  apply (controllers_are_independent 0 (Add Samples.widget)
           Samples.cash_main_st Samples.a_at_b app); repeat split.
Defined.

Lemma invoke_all_all_normal fuel e (p : payload e) :
  (∀ h s, status (invoke handlers fuel e p h s) = Normal) →
  ∀ hs s, status (invoke_all handlers fuel e p hs s) = Normal.
Proof.
  intros Hh. induction hs as [|h hs IH]; intros s; [done|].
  cbn [invoke_all]. by rewrite status_and_then, Hh.
Qed.

Lemma dispatch_basket_update_returns fuel items s :
  status (dispatch handlers (S fuel) basket_update items s) = Normal.
Proof.
  rewrite dispatch_invoke_all. apply invoke_all_all_normal.
  intros h s'. rewrite invoke_S.
  by destruct h as [|[|[|[|[|[|h]]]]]].
Qed.

Lemma invoke_returns fuel e (p : payload e) h s :
  status (invoke handlers (S (S fuel)) e p h s) = Normal.
Proof.
  rewrite invoke_S. revert p.
  destruct h as [|[|[|[|[|[|h]]]]]]; destruct e; intros p;
    cbn -[dispatch]; try done.
  - by rewrite status_and_then, dispatch_basket_update_returns.
  - by rewrite status_and_then, dispatch_basket_update_returns.
  - by destruct (finalOrder _).
Qed.

(** X14. No dispatch among the controllers throws or loops: whatever the
    event, the payload and the callbacks of the six registered for it,
    the dispatch returns normally, and callbacks never nest deeper than
    two. *)
Theorem every_dispatch_returns fuel e (p : payload e) s :
  status (dispatch handlers (S (S fuel)) e p s) = Normal.
Proof.
  rewrite dispatch_invoke_all. apply invoke_all_all_normal.
  intros h s'. apply invoke_returns.
Qed.

End MoreCatalog.

(** ** The order controller, continued *)

Section MoreOrder.
Import App.
Implicit Types (s : World Components).

(** X15. What the controllers hold does not depend on the order in which
    [order:init] and [order:submit] arrive: both orders end in the same
    world. *)
Theorem order_events_commute fuel d c s :
  order_subscribed s →
  final (and_then (dispatch handlers (S fuel) order_init d s)
           (dispatch handlers (S fuel) order_submit c))
  = final (and_then (dispatch handlers (S fuel) order_submit c s)
             (dispatch handlers (S fuel) order_init d)).
Proof.
  intros [Hi Hs]. unfold and_then.
  rewrite (dispatch_order_init fuel d s), (dispatch_order_submit fuel c s)
    by done.
  cbn [status final calls].
  rewrite dispatch_order_submit, dispatch_order_init by done.
  reflexivity.
Qed.

Lemma order_events_commute_witness :
  final (and_then (dispatch handlers 1 order_init Samples.cash_main_st app)
           (dispatch handlers 1 order_submit Samples.a_at_b))
  = final (and_then (dispatch handlers 1 order_submit Samples.a_at_b app)
             (dispatch handlers 1 order_init Samples.cash_main_st)).
Proof.
  apply (order_events_commute 0 Samples.cash_main_st Samples.a_at_b app).
  by split.
Defined.



End MoreOrder.

(** ** The view base, continued *)

Section MoreView.
Import View.
Context {V Region : Type}.
Variable render_region : gmap string V → Region → Region * option string.

(** X17. Two updates in a row leave the state that the single update with
    both sets of fields (the later one winning on a common field) leaves,
    and render twice: once on the intermediate state, once on the final
    one. *)
Theorem updateState_twice (u1 u2 : gmap string V) (v : BaseView) :
  let v1 := (updateState render_region u1 v).1 in
  let v2 := (updateState render_region u2 v1).1 in
  state v2 = state (updateState render_region (u2 ∪ u1) v).1 ∧
  rendered v2 = rendered v ++ [u1 ∪ state v; u2 ∪ (u1 ∪ state v)].
Proof.
  cbn. split.
  - by rewrite (assoc_L (∪)).
  - by rewrite <- app_assoc.
Qed.

(** X18. There is no change detection: an update whose fields all have
    the value they already have (the empty update among them) leaves the
    state as it is and still calls [render] once. *)
Theorem updateState_without_change (u : gmap string V) (v : BaseView) :
  u ⊆ state v →
  state (updateState render_region u v).1 = state v ∧
  rendered (updateState render_region u v).1 = rendered v ++ [state v].
Proof.
  intros Hu. cbn. by rewrite (map_subseteq_union _ _ Hu).
Qed.

End MoreView.

Lemma updateState_without_change_witness :
  View.state (View.updateState Samples.show_title {[ "price" := "10" ]}
                Samples.card).1
  = View.state Samples.card ∧
  View.rendered (View.updateState Samples.show_title {[ "price" := "10" ]}
                   Samples.card).1
  = View.rendered Samples.card ++ [View.state Samples.card].
Proof.
  apply (updateState_without_change Samples.show_title).
  apply map_subseteq_spec. intros k x Hk.
  apply lookup_singleton_Some in Hk as [<- <-]. reflexivity.
Defined.

(** ** The modal view *)

#[local] Set Warnings "-clear-no-such-hyp".

Section ModalClaims.
Import Modal.
Context {Node : Type}.
Implicit Types (m : ModalView (Node := Node)) (a c : Node).

(** X19. Opening a modal that is already open replaces the content in
    place: the overlay stays shown, the class list is the one a single
    opening gives, and the content shown is the second one. *)
Theorem openModal_twice a c m :
  is_open (openModal (Some c) (openModal (Some a) m)) ∧
  classList (openModal (Some c) (openModal (Some a) m))
  = classList (openModal (Some a) m) ∧
  modal_content (openModal (Some c) (openModal (Some a) m))
  = (λ _, [c]) <$> modal_content m.
Proof.
  unfold is_open. cbn. split_and!.
  - set_solver.
  - set_solver.
  - by destruct (modal_content m).
Qed.

(** X20. [closeModal] hides the overlay whatever the state, touches no
    other class, is idempotent, and does not clear the content: what was
    opened last is still in the closed modal. *)
Theorem closeModal_hides_keeps_content c m :
  ¬ is_open (closeModal (openModal (Some c) m)) ∧
  classList (closeModal (openModal (Some c) m))
  = classList m ∖ {["modal_active"]} ∧
  closeModal (closeModal m) = closeModal m ∧
  modal_content (closeModal (openModal (Some c) m))
  = (λ _, [c]) <$> modal_content m.
Proof.
  unfold is_open, closeModal. cbn. split_and!.
  - set_solver.
  - set_solver.
  - f_equal. set_solver.
  - done.
Qed.

End ModalClaims.

(** ** The remove buttons of the basket view *)

Section ClickClaims.
Import App Clicks.
Implicit Types (s : World Components) (st : list IProductCard).

(** X21. The remove button of a basket line finds its product by
    comparing the value of its [data-id] attribute with the titles of the
    view state, whatever that value is: when no title equals it, the click
    dispatches nothing and changes nothing; otherwise the click removes
    from the basket the product of the first line whose title equals
    it. *)
Theorem remove_click_finds_by_title fuel st productName s :
  listeners s product_remove = [on_product_remove] →
  listeners s basket_update = [on_basket_update] →
  let o := exec (dispatch handlers (S (S fuel)))
             (BasketView_remove_click st productName) s in
  status o = Normal ∧
  (Forall (λ item, title (product item) ≠ productName) st →
   calls o = [] ∧ final o = s) ∧
  (∀ i line,
     st !! i = Some line →
     title (product line) = productName →
     (∀ j y, st !! j = Some y → j < i → title (product y) ≠ productName) →
     basket_of (final o) = removeFromBasket_lines (basket_of s) (product line) ∧
     lines_for (id (product line)) (basket_of (final o)) = []).
Proof.
  intros Hr Hu o. subst o. unfold BasketView_remove_click.
  destruct (list_find _ st) as [[k item]|] eqn:Hf.
  - cbn [exec]. rewrite dispatch_product_remove by done.
    apply list_find_Some in Hf as (Hk & Hitem & Hbefore).
    split_and!; [done| |].
    + intros Hnone. rewrite Forall_forall in Hnone.
      destruct (Hnone item); [by eapply list_elem_of_lookup_2|done].
    + intros i line Hi Hline Hfirst. cbn [final].
      assert (i = k) as ->.
      { destruct (Nat.lt_trichotomy i k) as [Hlt|[Heq|Hgt]]; [|done|].
        - by destruct (Hbefore i line Hi Hlt).
        - by destruct (Hfirst k item Hk Hgt). }
      assert (line = item) as -> by congruence.
      split; [done|]. apply lines_for_remove_same.
  - apply list_find_None in Hf. rewrite Forall_forall in Hf.
    split_and!; [done|done|].
    intros i line Hi Hline _.
    destruct (Hf line); [by eapply list_elem_of_lookup_2|done].
Qed.

Lemma remove_click_finds_by_title_witness :
  let s := final (add_all 2 [Samples.widget; Samples.gadget] app) in
  let hit := exec (dispatch handlers 2)
               (BasketView_remove_click (basket_of s) "Gadget") s in
  let miss := exec (dispatch handlers 2)
                (BasketView_remove_click (basket_of s) "Gadge") s in
  (status hit = Normal ∧
   basket_of (final hit) = removeFromBasket_lines (basket_of s) Samples.gadget ∧
   lines_for "p2" (basket_of (final hit)) = []) ∧
  (status miss = Normal ∧ calls miss = [] ∧ final miss = s).
Proof.
  cbv zeta. split.
  - destruct (remove_click_finds_by_title 0
                (basket_of (final (add_all 2 [Samples.widget; Samples.gadget]
                                     app)))
                "Gadget"
                (final (add_all 2 [Samples.widget; Samples.gadget] app))
                eq_refl eq_refl) as (Hst & _ & Hfound).
    split; [exact Hst|].
    apply (Hfound 1
             {| product := Samples.gadget; buttonText := None;
                itemCount := 1%Z |}); [reflexivity|reflexivity|].
    intros j y Hj Hlt. destruct j as [|j]; [|lia].
    injection Hj as <-. discriminate.
  - destruct (remove_click_finds_by_title 0
                (basket_of (final (add_all 2 [Samples.widget; Samples.gadget]
                                     app)))
                "Gadge"
                (final (add_all 2 [Samples.widget; Samples.gadget] app))
                eq_refl eq_refl) as (Hst & Hnone & _).
    split; [exact Hst|]. apply Hnone.
    repeat (apply Forall_cons_2; [discriminate|]). apply Forall_nil_2.
Defined.

(** Two products with one title: the button of the second line removes
    the first product. *)
Example remove_click_same_title :
  let twin :=
    {| id := "p9"; description := "Another widget"; image := "w2.png";
       title := "Widget"; category := "tools"; price := None |} in
  let s := final (add_all 2 [Samples.widget; twin] app) in
  let o := exec (dispatch handlers 2)
             (BasketView_remove_click (basket_of s) (title twin)) s in
  Basket.identities (basket_of s) = ["p1"; "p9"] ∧
  Basket.identities (basket_of (final o)) = ["p9"].
Proof. split; reflexivity. Qed.

End ClickClaims.
